(** * counterfit/core/targets.py: query execution, caching and attack lifecycle

    A shallow embedding of the [Target] class hierarchy of
    [counterfit/core/targets.py] and the verification of its caching,
    counter and lifecycle properties.

    Python objects are mutable and exceptions leave earlier mutations in
    place, so every method is a state transformer over the [target] record
    that returns either a value or the exception raised, together with the
    state reached. *)

From Stdlib Require Import ZArith.
From Stdlib.Strings Require Import Byte.
From stdpp Require Import gmap strings list fin_maps.

Set Default Proof Using "Type*".

(** ** Bytes as dictionary keys *)

Abbreviation bytes := (list byte).

#[global] Instance byte_eq_decision : EqDecision byte := Byte.byte_eq_dec.

#[global] Instance byte_countable : Countable byte :=
  inj_countable Byte.to_N Byte.of_N Byte.of_to_N.

(** ** Exceptions and results *)

Inductive exn :=
  | NotImplementedError
  | KeyError
  | IndexError
  | TypeError
  | ValueError
  | AttributeError
  | OverflowError
  | ExternalError (msg : string).

Inductive result (A : Type) :=
  | Ok (a : A)
  | Raise (e : exn).
Arguments Ok {A} a.
Arguments Raise {A} e.

(** ** Python values that occur as parameters and as status filters *)

(** Modelled from the spec: [enums.AttackStatus] is imported from
    [counterfit.core.enums], which is outside this file; the session status
    is the enumeration pending, running, completed. *)
Inductive AttackStatus := pending | running | completed.

#[global] Instance AttackStatus_eq_dec : EqDecision AttackStatus.
Proof. solve_decision. Defined.

Inductive pyval :=
  | PNone
  | PBool (b : bool)
  | PInt (z : Z)
  | PStr (s : string)
  | PStatus (s : AttackStatus).

#[global] Instance pyval_eq_dec : EqDecision pyval.
Proof. solve_decision. Defined.

(** Python truth value: [None], [False], [0] and the empty string are
    falsy; enumeration members are truthy. *)
Definition truthy (v : pyval) : bool :=
  match v with
  | PNone => false
  | PBool b => b
  | PInt z => negb (z =? 0)%Z
  | PStr s => negb (bool_decide (s = EmptyString))
  | PStatus _ => true
  end.

(** Modelled from the spec: [v in enums.AttackStatus], the membership test
    on the enumeration class. A member of the enumeration is in it. For any
    other operand the answer is the interpreter's: Python 3.8 to 3.11 raise
    [TypeError], older versions answer [False], and from 3.12 on the answer
    is whether the operand is the value of a member. That answer is the
    parameter [other]. *)
Definition in_AttackStatus (other : pyval → result bool) (v : pyval) : result bool :=
  match v with
  | PStatus _ => Ok true
  | _ => other v
  end.

(** ** Samples

    A sample, once passed through [np.array], is an array with an element
    type, a shape and a data buffer. *)
Record ndarray := mk_ndarray {
  dtype : string;
  shape : list nat;
  data : bytes;
}.

#[global] Instance ndarray_eq_dec : EqDecision ndarray.
Proof. solve_decision. Defined.

(** [Target._key]: [np.array(array).data.tobytes()], the raw buffer; the
    element type and the shape do not enter the key. *)
Definition _key (array : ndarray) : bytes := data array.

(** [target_class] of a session: one class index or a vector of them. *)
Inductive tclass :=
  | TCInt (z : Z)
  | TCList (zs : list Z).

(** The classes of the hierarchy, for the dispatch of [_run_attack]. *)
Inductive target_kind := BaseTarget | ArtTarget | TextTarget | PETarget.

(** ** The abstract part of a target

    [__call__] is the model, left to the concrete target; [argmax] stands for
    [np.argmax] on one output row; [_save_image] and [_save_exe] are the
    media encoders, which write files and return or raise. *)
Class AbstractTarget (output label : Type) := {
  __call__ : list ndarray → result (list output);
  argmax : output → nat;
  _save_image : ndarray → string → nat → label → result string;
  _save_exe : ndarray → string → label → result unit;
}.

Section Target.
Context {output label : Type} `{!EqDecision label} `{!AbstractTarget output label}.

(** [Query = namedtuple('Query', ['input', 'output', 'label'])] *)
Record Query := mkQuery {
  q_input : list ndarray;
  q_output : list output;
  q_label : list label;
}.

(** The dictionary made by [Query._asdict()], to which [run_attack] may add
    an ['images'] entry. *)
Record query_dict := mk_query_dict {
  d_input : list ndarray;
  d_output : list output;
  d_label : list label;
  d_images : option (list string);
}.

Definition _asdict (q : Query) : query_dict :=
  mk_query_dict (q_input q) (q_output q) (q_label q) None.

(** Values of the [results] dictionary of a session. *)
Inductive rvalue :=
  | RQuery (d : query_dict)
  | RTime (t : Z)
  | RInt (z : Z).

(** One record of the session log (the timestamp string is left out). *)
Record log_entry := mk_log_entry {
  log_model_id : string;
  log_attack_name : string;
  log_attack_id : string;
  log_input : ndarray;
  log_output : output;
  log_label : label;
}.

(** ** The external attack

    An attack of ART or TextAttack is handed a callable and calls it as
    often as it likes before it returns the perturbed samples or raises.
    It is a tree: a leaf returns or raises, a node submits a batch and goes
    on with what the callable gave back (its outputs, or its exception). *)
Inductive runner :=
  | Done (adv_examples : list ndarray)
  | Fail (e : exn)
  | Ask (batch : list ndarray) (k : result (list output) → runner).

(** What the attack is started with: ART and PE attacks get the parameters,
    the samples and, when targeted, the target classes; TextAttack gets the
    samples paired with their initial labels. *)
Inductive attack_input :=
  | GenerateInput (params : gmap string pyval) (x : list ndarray)
      (y : option (list tclass))
  | DatasetInput (dataset : list (ndarray * label)).

(** ** The attack session ([active_attack]) *)
Record attack := mk_attack {
  attack_name : string;
  attack_id : string;
  status : AttackStatus;
  parameters : gmap string pyval;
  target_class : tclass;
  sample_index : list nat;
  samples : list ndarray;
  results : gmap string rvalue;
  logs : list log_entry;
  attack_cls : attack_input → runner;
}.

(** ** The target

    [model_calls] is not an attribute of the class: it records, in order,
    the batches [__call__] was invoked on. *)
Record target := mk_target {
  kind : target_kind;
  model_name : string;
  model_data_type : string;
  model_output_classes : list label;
  zip_info : list string;
  sample_input_path : string;
  attacks : gmap string attack;
  active_attack : option attack;
  num_evaluations : Z;
  actual_evaluations : Z;
  cache : gmap bytes output;
  model_calls : list (list ndarray);
}.

Definition with_num (f : Z → Z) (t : target) : target :=
  mk_target (kind t) (model_name t) (model_data_type t) (model_output_classes t)
    (zip_info t) (sample_input_path t) (attacks t) (active_attack t)
    (f (num_evaluations t)) (actual_evaluations t) (cache t) (model_calls t).

Definition with_actual (f : Z → Z) (t : target) : target :=
  mk_target (kind t) (model_name t) (model_data_type t) (model_output_classes t)
    (zip_info t) (sample_input_path t) (attacks t) (active_attack t)
    (num_evaluations t) (f (actual_evaluations t)) (cache t) (model_calls t).

Definition with_cache (f : gmap bytes output → gmap bytes output) (t : target) : target :=
  mk_target (kind t) (model_name t) (model_data_type t) (model_output_classes t)
    (zip_info t) (sample_input_path t) (attacks t) (active_attack t)
    (num_evaluations t) (actual_evaluations t) (f (cache t)) (model_calls t).

Definition with_calls (f : list (list ndarray) → list (list ndarray)) (t : target) : target :=
  mk_target (kind t) (model_name t) (model_data_type t) (model_output_classes t)
    (zip_info t) (sample_input_path t) (attacks t) (active_attack t)
    (num_evaluations t) (actual_evaluations t) (cache t) (f (model_calls t)).

Definition with_active (a : option attack) (t : target) : target :=
  mk_target (kind t) (model_name t) (model_data_type t) (model_output_classes t)
    (zip_info t) (sample_input_path t) (attacks t) a
    (num_evaluations t) (actual_evaluations t) (cache t) (model_calls t).

(** ** Methods as state transformers *)

Definition M (A : Type) : Type := target → result A * target.

Definition ret {A} (a : A) : M A := λ t, (Ok a, t).
Definition raise {A} (e : exn) : M A := λ t, (Raise e, t).
Definition bind {A B} (m : M A) (k : A → M B) : M B :=
  λ t, match m t with
       | (Ok a, t') => k a t'
       | (Raise e, t') => (Raise e, t')
       end.
Definition get {A} (f : target → A) : M A := λ t, (Ok (f t), t).
Definition modify (f : target → target) : M unit := λ t, (Ok tt, f t).
Definition lift {A} (r : result A) : M A := λ t, (r, t).

#[global] Instance M_ret : MRet M := @ret.
#[global] Instance M_bind : MBind M := λ A B k m, bind m k.

(** The model is reached through [self.__call__] only; every invocation is
    recorded. [np.array(batch)] stacks the samples and is the identity on
    the list of arrays. *)
Definition call_model (batch : list ndarray) : M (list output) :=
  modify (with_calls (λ h, h ++ [batch]));;
  lift (__call__ batch).

(** [l[i] = v]: an index beyond the list raises [IndexError]. *)
Definition list_set {A} (l : list A) (i : nat) (v : A) : result (list A) :=
  if decide (i < length l) then Ok (<[i:=v]> l) else Raise IndexError.

(** *** [_submit_with_cache] *)

(** First loop: [for i, array in enumerate(batch_input)], started at index
    [i] with the three lists built so far. *)
Fixpoint scan_batch (c : gmap bytes output) (i : nat) (batch_input : list ndarray)
    (acc : list ndarray * list nat * list (option output))
    : list ndarray * list nat * list (option output) :=
  match batch_input with
  | [] => acc
  | array :: rest =>
      let '(submit_batch, index, out) := acc in
      let key := _key array in
      match c !! key with
      | Some o => scan_batch c (S i) rest (submit_batch, index, out ++ [Some o])
      | None =>
          scan_batch c (S i) rest
            (submit_batch ++ [array], index ++ [i], out ++ [None])
      end
  end.

(** Second loop: [for i, inp, outp in zip(index, submit_batch, results)]. *)
Fixpoint merge_results (zs : list (nat * ndarray * output))
    (out : list (option output)) : M (list (option output)) :=
  match zs with
  | [] => ret out
  | (i, inp, outp) :: zs' =>
      let key := _key inp in
      modify (with_cache (λ c, <[key := outp]> c));;
      out' ← lift (list_set out i (Some outp));
      merge_results zs' out'
  end.

Definition _submit_with_cache (batch_input : list ndarray) : M (list (option output)) :=
  modify (with_num (λ n, n + Z.of_nat (length batch_input))%Z);;
  c ← get cache;
  let '(submit_batch, index, out) := scan_batch c 0 batch_input ([], [], []) in
  if decide (0 < length submit_batch) then
    modify (with_actual (λ n, n + Z.of_nat (length submit_batch))%Z);;
    res ← call_model submit_batch;
    merge_results (zip (zip index submit_batch) res) out
  else ret out.

(** *** [_submit] (and [PETarget._submit], which differs only in not
    stacking the batch) *)
Definition _submit (batch_input : list ndarray) : M (list output) :=
  modify (with_num (λ n, n + Z.of_nat (length batch_input))%Z);;
  modify (with_actual (λ n, n + Z.of_nat (length batch_input))%Z);;
  call_model batch_input.

(** *** [outputs_to_labels]: [output = np.atleast_2d(output)], then
    [[self.model_output_classes[i] for i in np.argmax(output, axis=1)]].
    An empty output becomes an array of one row without entries, of which
    [np.argmax] refuses to take the arg-max: [ValueError]. *)
Fixpoint select_labels (classes : list label) (idx : list nat) : result (list label) :=
  match idx with
  | [] => Ok []
  | i :: rest =>
      match classes !! i with
      | None => Raise IndexError
      | Some c =>
          match select_labels classes rest with
          | Ok ls => Ok (c :: ls)
          | Raise e => Raise e
          end
      end
  end.

Definition outputs_to_labels (out : list output) : M (list label) :=
  match out with
  | [] => raise ValueError
  | _ =>
      classes ← get model_output_classes;
      lift (select_labels classes (argmax <$> out))
  end.

(** *** The session object behind [self.active_attack] *)

Definition with_status (s : AttackStatus) (a : attack) : attack :=
  mk_attack (attack_name a) (attack_id a) s (parameters a) (target_class a)
    (sample_index a) (samples a) (results a) (logs a) (attack_cls a).

Definition with_results (f : gmap string rvalue → gmap string rvalue) (a : attack) : attack :=
  mk_attack (attack_name a) (attack_id a) (status a) (parameters a) (target_class a)
    (sample_index a) (samples a) (f (results a)) (logs a) (attack_cls a).

Definition with_logs (f : list log_entry → list log_entry) (a : attack) : attack :=
  mk_attack (attack_name a) (attack_id a) (status a) (parameters a) (target_class a)
    (sample_index a) (samples a) (results a) (f (logs a)) (attack_cls a).

(** Reading an attribute of [self.active_attack] while it is [None] raises
    [AttributeError]. *)
Definition the_attack : M attack :=
  λ t, match active_attack t with
       | Some a => (Ok a, t)
       | None => (Raise AttributeError, t)
       end.

Definition update_attack (f : attack → attack) : M unit :=
  a ← the_attack;
  modify (with_active (Some (f a))).

(** [self.active_attack.results[k]] read as a query dictionary. *)
Definition results_query (k : string) : M query_dict :=
  a ← the_attack;
  match results a !! k with
  | Some (RQuery d) => ret d
  | Some _ => raise TypeError
  | None => raise KeyError
  end.

Definition set_images (k : string) (filenames : list string) : M unit :=
  d ← results_query k;
  update_attack (with_results
    (<[k := RQuery (mk_query_dict (d_input d) (d_output d) (d_label d) (Some filenames))]>)).

(** *** [_submit_with_logging] *)
Fixpoint append_logs (name id : string) (zs : list (ndarray * output * label)) : M unit :=
  match zs with
  | [] => ret tt
  | (_inp, _outp, _lab) :: zs' =>
      model_id ← get model_name;
      update_attack (with_logs (λ l, l ++ [mk_log_entry model_id name id _inp _outp _lab]));;
      append_logs name id zs'
  end.

Definition _submit_with_logging (batch_input : list ndarray) (name id : string)
    : M (list output) :=
  out ← _submit batch_input;
  lab ← outputs_to_labels out;
  append_logs name id (zip (zip batch_input out) lab);;
  ret out.

(** *** [_get_query] (and [PETarget._get_query]) *)
Definition _get_query (batch : list ndarray) : M Query :=
  outp ← _submit batch;
  labels ← outputs_to_labels outp;
  ret (mkQuery batch outp labels).

(** *** [get_attacks]: the answer is [self.attacks], [False] or a new
    dictionary; [other] is what the membership test answers for an operand
    that is no member of the enumeration, and what it raises propagates. *)
Inductive attacks_answer :=
  | AnswerFalse
  | AnswerDict (d : gmap string attack).

Definition get_attacks (other : pyval → result bool) (t : target) (st : pyval)
    : result attacks_answer :=
  if negb (truthy st) then Ok (AnswerDict (attacks t))
  else match in_AttackStatus other st with
       | Raise e => Raise e
       | Ok false => Ok AnswerFalse
       | Ok true =>
           Ok (AnswerDict (filter (λ kv, PStatus (status kv.2) = st) (attacks t)))
       end.

(** *** [check_attack_success] *)

(** One position of [np.array(classes)]: a negative index counts from the
    end; an index outside the array raises [IndexError]. *)
Definition np_index (classes : list label) (z : Z) : result label :=
  let n := Z.of_nat (length classes) in
  let i := (if z <? 0 then z + n else z)%Z in
  if ((0 <=? i) && (i <? n))%Z
  then match classes !! Z.to_nat i with
       | Some c => Ok c
       | None => Raise IndexError
       end
  else Raise IndexError.

(** [np.array(classes)[target_class]] for one Python integer: numpy first
    converts the integer to a C long, which raises [OverflowError] when it
    does not fit into 64 bits, and then indexes. *)
Definition np_item (classes : list label) (z : Z) : result label :=
  if ((- 2 ^ 63 <=? z) && (z <? 2 ^ 63))%Z then np_index classes z
  else Raise OverflowError.

(** [np.array(classes)[target_class]] for a list of integers: the list
    becomes an index array, and every position is looked up. *)
Fixpoint np_items (classes : list label) (zs : list Z) : result (list label) :=
  match zs with
  | [] => Ok []
  | z :: rest =>
      match np_index classes z with
      | Raise e => Raise e
      | Ok c =>
          match np_items classes rest with
          | Ok cs => Ok (c :: cs)
          | Raise e => Raise e
          end
      end
  end.

(** Elementwise comparison of two one-dimensional arrays with numpy's
    broadcasting: equal lengths compare position by position, a length of
    one is stretched, any other pair of lengths is refused. *)
Definition np_compare (f : label → label → bool) (a b : list label) : result (list bool) :=
  if decide (length a = length b) then Ok (zip_with f a b)
  else match a, b with
       | [x], _ => Ok (f x <$> b)
       | _, [y] => Ok ((λ x, f x y) <$> a)
       | _, _ => Raise ValueError
       end.

Definition label_eqb (x y : label) : bool := bool_decide (x = y).
Definition label_neqb (x y : label) : bool := negb (bool_decide (x = y)).

Definition targeted (params : gmap string pyval) : bool :=
  truthy (default (PBool false) (params !! "targeted")).

Definition check_attack_success : M (list bool) :=
  final ← results_query "final";
  let new_labels := d_label final in
  initial ← results_query "initial";
  let old_labels := d_label initial in
  a ← the_attack;
  if targeted (parameters a) then
    classes ← get model_output_classes;
    match target_class a with
    | TCInt z =>
        c ← lift (np_item classes z);
        ret (flip label_eqb c <$> new_labels)
    | TCList zs =>
        cs ← lift (np_items classes zs);
        lift (np_compare label_eqb new_labels cs)
    end
  else lift (np_compare label_neqb new_labels old_labels).

(** *** Running the external attack *)

(** The callable handed to the attack: [func if logging else self._submit]. *)
Definition submit_sample (logging : bool) (name id : string) (batch : list ndarray)
    : M (list output) :=
  if logging then _submit_with_logging batch name id else _submit batch.

Fixpoint exec_runner (logging : bool) (name id : string) (r : runner) : M (list ndarray) :=
  match r with
  | Done adv_examples => ret adv_examples
  | Fail e => raise e
  | Ask batch k =>
      λ t, let '(res, t') := submit_sample logging name id batch t in
           exec_runner logging name id (k res) t'
  end.

(** [ArtTarget._run_art_attack] and [PETarget._run_attack] *)
Definition _run_art_attack (logging : bool) : M (list ndarray) :=
  a ← the_attack;
  let y := if targeted (parameters a)
           then Some (replicate (length (samples a)) (target_class a))
           else None in
  adv_examples ← exec_runner logging (attack_name a) (attack_id a)
                   (attack_cls a (GenerateInput (parameters a) (samples a) y));
  update_attack (with_status completed);;
  ret adv_examples.

(** [TextTarget._run_textattack_attack] *)
Definition _run_textattack_attack (logging : bool) : M (list ndarray) :=
  a ← the_attack;
  initial ← results_query "initial";
  res ← exec_runner logging (attack_name a) (attack_id a)
          (attack_cls a (DatasetInput (zip (samples a) (d_label initial))));
  update_attack (with_status completed);;
  ret res.

Definition _run_attack (logging : bool) : M (list ndarray) :=
  k ← get kind;
  match k with
  | BaseTarget => raise NotImplementedError
  | ArtTarget | PETarget => _run_art_attack logging
  | TextTarget => _run_textattack_attack logging
  end.

(** *** [init_run_attack] *)
Definition init_run_attack : M unit :=
  a ← the_attack;
  initial ← _get_query (samples a);
  update_attack (with_results (λ _, {[ "initial" := RQuery (_asdict initial) ]})).

(** *** [run_attack] *)

(** Saving the images of one query: the file list is attached to the
    dictionary after every file written. *)
Fixpoint save_images (k : string) (i : nat) (arrays : list ndarray)
    (filenames : list string) : M unit :=
  match arrays with
  | [] => ret tt
  | array :: rest =>
      d ← results_query k;
      lab ← lift (match d_label d !! i with Some l => Ok l | None => Raise IndexError end);
      f ← lift (_save_image array k i lab);
      set_images k (filenames ++ [f]);;
      save_images k (S i) rest (filenames ++ [f])
  end.

(** Saving the executables or pages of the final query; [_save_exe] is a
    method of [PETarget] only, and [self._save_exe] is looked up before its
    arguments, the entry of [zip_info] among them, are evaluated. The
    housekeeping of the results folder, the temporary directory and the
    archive is not modelled. *)
Fixpoint save_exes (i : nat) (arrays : list ndarray) (filenames : list string)
    : M (list string) :=
  match arrays with
  | [] => ret filenames
  | array :: rest =>
      d ← results_query "final";
      lab ← lift (match d_label d !! i with Some l => Ok l | None => Raise IndexError end);
      k ← get kind;
      (match k with
       | PETarget => ret tt
       | _ => raise AttributeError
       end);;
      a ← the_attack;
      zi ← get zip_info;
      name ← lift (match sample_index a !! i ≫= (zi !!.) with
                   | Some n => Ok n
                   | None => Raise IndexError
                   end);
      lift (_save_exe array name lab);;
      path ← get sample_input_path;
      save_exes (S i) rest (filenames ++ [path +:+ "/" +:+ name])
  end.

(** The last part of [run_attack]: what is saved depends on
    [model_data_type]. *)
Definition save_media (final : Query) : M unit :=
  dt ← get model_data_type;
  if decide (dt = "image") then
    initial ← results_query "initial";
    save_images "initial" 0 (d_input initial) [];;
    save_images "final" 0 (q_input final) []
  else if decide (dt = "pe" ∨ dt = "html") then
    filenames ← save_exes 0 (q_input final) [];
    set_images "final" filenames
  else ret tt.

(** [t0] and [t1] are the two readings of [time.time()]. *)
Definition run_attack (logging : bool) (t0 t1 : Z) : M unit :=
  queries0 ← get num_evaluations;
  actual_queries0 ← get actual_evaluations;
  resulting_samples ← _run_attack logging;
  final ← _get_query resulting_samples;
  update_attack (with_results (<["final" := RQuery (_asdict final)]>));;
  let elapsed := (t1 - t0)%Z in
  n ← get num_evaluations;
  let queries := (n - queries0)%Z in
  m ← get actual_evaluations;
  let actual_queries := (m - actual_queries0)%Z in
  update_attack (with_results (<["elapsed_time" := RTime elapsed]>));;
  update_attack (with_results (<["queries" := RInt queries]>));;
  update_attack (with_results (<["cache_hits" := RInt (queries - actual_queries)]>));;
  save_media final.

(** ** Notions used to state the properties *)

(** The miss batch: the inputs whose key is not in the cache [c], in their
    original order; [hit_batch] holds the others. *)
Definition miss_batch (c : gmap bytes output) (batch : list ndarray) : list ndarray :=
  filter (λ a, c !! _key a = None) batch.

Definition hit_batch (c : gmap bytes output) (batch : list ndarray) : list ndarray :=
  filter (λ a, is_Some (c !! _key a)) batch.

(** The positions of the misses, counted from [i]. *)
Fixpoint miss_index (c : gmap bytes output) (i : nat) (batch : list ndarray) : list nat :=
  match batch with
  | [] => []
  | a :: rest =>
      if decide (c !! _key a = None) then i :: miss_index c (S i) rest
      else miss_index c (S i) rest
  end.

(** The output list as the specification words it: walking the batch, a hit
    takes the stored output and a miss takes the next output of the model
    (nothing when the model gave too few). *)
Fixpoint splice (c : gmap bytes output) (batch : list ndarray) (res : list output)
    : list (option output) :=
  match batch with
  | [] => []
  | a :: rest =>
      match c !! _key a with
      | Some o => Some o :: splice c rest res
      | None =>
          match res with
          | [] => None :: splice c rest []
          | r :: res' => Some r :: splice c rest res'
          end
      end
  end.

(** The cache after the outputs [res] of the misses were written back. *)
Definition write_back (c : gmap bytes output) (zs : list (ndarray * output))
    : gmap bytes output :=
  foldl (λ c' z, <[_key z.1 := z.2]> c') c zs.

(** The model keeps its contract on [batch]: it returns, and gives one
    output per input. *)
Definition answers (batch : list ndarray) (res : list output) : Prop :=
  __call__ batch = Ok res ∧ length res = length batch.

(** A sequence of submissions, cached or not, run one after the other
    whatever each one returns or raises. *)
Inductive submission :=
  | Cached (batch : list ndarray)
  | Uncached (batch : list ndarray).

Definition submit_batch (s : submission) (t : target) : target :=
  match s with
  | Cached batch => (_submit_with_cache batch t).2
  | Uncached batch => (_submit batch t).2
  end.

Definition run_submissions (calls : list submission) (t : target) : target :=
  foldl (λ t' s, submit_batch s t') t calls.

(** The check written as a function of what it reads: the two recorded
    label lists, the parameters, the target class and the vocabulary. *)
Definition success_of (params : gmap string pyval) (tc : tclass)
    (classes new_labels old_labels : list label) : result (list bool) :=
  if targeted params then
    match tc with
    | TCInt z =>
        match np_item classes z with
        | Ok c => Ok (flip label_eqb c <$> new_labels)
        | Raise e => Raise e
        end
    | TCList zs =>
        match np_items classes zs with
        | Ok cs => np_compare label_eqb new_labels cs
        | Raise e => Raise e
        end
    end
  else np_compare label_neqb new_labels old_labels.

(** The entry [k] of the results of the session, if there is one. *)
Definition recorded (k : string) (t : target) : option rvalue :=
  a ← active_attack t; results a !! k.

(** A computation preserves a relation when every run of it, returning or
    raising, relates the state before to the state after; it preserves it
    on failure when this holds of the runs that raise. *)
Definition preserves {A} (R : target → target → Prop) (m : M A) : Prop :=
  ∀ t r t', m t = (r, t') → R t t'.

Definition preserves_on_raise {A} (R : target → target → Prop) (m : M A) : Prop :=
  ∀ t e t', m t = (Raise e, t') → R t t'.

(** Two states agree on an observation [f]. *)
Definition keeps {B} (f : target → B) (t t' : target) : Prop := f t' = f t.

(** Logical submissions not answered by the model. *)
Definition gap (t : target) : Z := (num_evaluations t - actual_evaluations t)%Z.

(** Status and results of the session, if there is one. *)
Definition session_view (t : target) : option (AttackStatus * gmap string rvalue) :=
  (λ a, (status a, results a)) <$> active_attack t.

(** The counters and the recorded statistics. *)
Definition stats_view (t : target)
    : Z * Z * option (option rvalue * option rvalue) :=
  (num_evaluations t, actual_evaluations t,
   (λ a, (results a !! "queries", results a !! "cache_hits")) <$> active_attack t).

(** What the uncached path leaves alone: the gap between the two counters,
    the status and the results of the session, and the cache. *)
Definition runner_view (t : target) := (gap t, session_view t, cache t).

(** ** Notions used to state the further properties *)

(** The number of samples handed to [__call__] so far. *)
Definition samples_sent (t : target) : Z :=
  Z.of_nat (length (concat (model_calls t))).

(** The evaluations counted ahead of the samples sent. *)
Definition unsent (t : target) : Z :=
  (actual_evaluations t - samples_sent t)%Z.

(** The records [_submit_with_logging] appends for the triples [zs]. *)
Definition log_entries (model_id name id : string)
    (zs : list (ndarray * output * label)) : list log_entry :=
  (λ z, mk_log_entry model_id name id z.1.1 z.1.2 z.2) <$> zs.

(** The attack replayed against the model alone, as it runs when the
    callable it is handed is [_submit]: how it ends, and the batches it
    submits on the way. *)
Fixpoint outcome (r : runner) : result (list ndarray) :=
  match r with
  | Done adv_examples => Ok adv_examples
  | Fail e => Raise e
  | Ask batch k => outcome (k (__call__ batch))
  end.

Fixpoint asked (r : runner) : list (list ndarray) :=
  match r with
  | Done _ | Fail _ => []
  | Ask batch k => batch :: asked (k (__call__ batch))
  end.



End Target.

(** ** A concrete target, used to run the methods on examples

    Outputs are integer scores and labels are strings. The toy model scores
    each row by its element type alone: 1 for [float32], 0 otherwise. *)

Definition toy_score (a : ndarray) : Z :=
  if decide (dtype a = "float32") then 1%Z else 0%Z.

Definition toy : AbstractTarget Z string := {|
  __call__ := λ batch, Ok (toy_score <$> batch);
  argmax := Z.to_nat;
  _save_image := λ _ k _ lab, Ok (k +:+ "-" +:+ lab);
  _save_exe := λ _ _ _, Ok tt;
|}.


(** Three samples: [sample_a] and [sample_b] hold the same four bytes under
    two element types, [sample_c] holds other bytes. *)
Definition sample_a : ndarray := mk_ndarray "int32" [1] [x01; x00; x00; x00].
Definition sample_b : ndarray := mk_ndarray "float32" [1] [x01; x00; x00; x00].
Definition sample_c : ndarray := mk_ndarray "int32" [1] [x02; x00; x00; x00].

(** An attack that asks nothing and hands its samples back. *)
Definition idle_attack (i : @attack_input string) : @runner Z :=
  match i with
  | GenerateInput _ x _ => Done x
  | DatasetInput dataset => Done dataset.*1
  end.

(** An attack that raises at once. *)
Definition failing_attack (i : @attack_input string) : @runner Z :=
  Fail (ExternalError "attack failed").

Definition toy_session (cls : @attack_input string → @runner Z) : @attack Z string :=
  mk_attack "hop_skip_jump" "a1" running ∅ (TCInt 0) [0] [sample_a] ∅ [] cls.

Definition toy_target (a : @attack Z string) : @target Z string :=
  mk_target ArtTarget "toy" "tabular" ["cat"; "dog"] [] EmptyString
    {[ "a1" := a ]} (Some a) 0 0 ∅ [].

(** The toy target before anything was submitted, and with the output of
    [sample_c] in its cache. *)
Definition toy_start : @target Z string := toy_target (toy_session idle_attack).

Definition toy_warm : @target Z string :=
  mk_target ArtTarget "toy" "tabular" ["cat"; "dog"] [] EmptyString
    {[ "a1" := toy_session idle_attack ]} (Some (toy_session idle_attack))
    1 1 {[ _key sample_c := 0%Z ]} [[sample_c]].

(** A model that is down, and a model that answers the first input of a
    batch only. *)
Definition broken : AbstractTarget Z string := {|
  __call__ := λ _, Raise (ExternalError "model down");
  argmax := Z.to_nat;
  _save_image := λ _ k _ lab, Ok (k +:+ "-" +:+ lab);
  _save_exe := λ _ _ _, Ok tt;
|}.

Definition terse : AbstractTarget Z string := {|
  __call__ := λ batch, Ok (toy_score <$> take 1 batch);
  argmax := Z.to_nat;
  _save_image := λ _ k _ lab, Ok (k +:+ "-" +:+ lab);
  _save_exe := λ _ _ _, Ok tt;
|}.

(** An attack that submits its samples once and returns them. *)
Definition one_query_attack (i : @attack_input string) : @runner Z :=
  match i with
  | GenerateInput _ x _ => Ask x (λ _, Done x)
  | DatasetInput dataset => Ask dataset.*1 (λ _, Done dataset.*1)
  end.

(** The toy target with a vocabulary of one label, as a target of the base
    class, and as an image target. *)
Definition toy_narrow : @target Z string :=
  mk_target ArtTarget "toy" "tabular" ["cat"] [] EmptyString
    {[ "a1" := toy_session idle_attack ]} (Some (toy_session idle_attack))
    0 0 ∅ [].

Definition toy_base : @target Z string :=
  mk_target BaseTarget "toy" "tabular" ["cat"; "dog"] [] EmptyString
    {[ "a1" := toy_session idle_attack ]} (Some (toy_session idle_attack))
    0 0 ∅ [].


(** A session holding recorded labels, for the success check. *)
Definition labelled_session (params : gmap string pyval) (tc : tclass)
    (initial final : list string) : @attack Z string :=
  mk_attack "hop_skip_jump" "a2" completed params tc [0] [sample_a]
    {[ "initial" := RQuery (mk_query_dict [sample_a] [0%Z] initial None);
       "final" := RQuery (mk_query_dict [sample_c] [0%Z] final None) ]}
    [] idle_attack.

Definition labelled_target (a : @attack Z string) : @target Z string :=
  mk_target ArtTarget "toy" "tabular" ["cat"; "dog"; "bird"] [] EmptyString
    {[ "a2" := a ]} (Some a) 0 0 ∅ [].

(** Two membership tests for operands that are no member of the
    enumeration: that of Python 3.8 to 3.11, which refuses them, and that of
    Python 3.7, which answers [False]. *)
Definition enum_refuses (v : pyval) : result bool := Raise TypeError.
Definition enum_denies (v : pyval) : result bool := Ok false.

(** * Properties *)

Section Properties.
Context {output label : Type} `{!EqDecision label} `{!AbstractTarget output label}.
Implicit Types (t : @target output label) (c : gmap bytes output).
Implicit Types (batch : list ndarray) (res : list output).

(** ** The two loops of [_submit_with_cache] *)

Lemma with_cache_id t : with_cache (λ c, c) t = t.
Proof. by destruct t. Qed.

Lemma scan_batch_spec c batch : ∀ i sb idx out,
  scan_batch c i batch (sb, idx, out)
  = (sb ++ miss_batch c batch, idx ++ miss_index c i batch,
     out ++ ((λ a, c !! _key a) <$> batch)).
Proof.
  induction batch as [|a rest IH]; intros i sb idx out; simpl.
  - by rewrite !app_nil_r.
  - unfold miss_batch. rewrite filter_cons.
    destruct (c !! _key a) as [o|] eqn:Hc; rewrite IH.
    + rewrite !decide_False by done. by rewrite <- !app_assoc.
    + rewrite !decide_True by done. by rewrite <- !app_assoc.
Qed.

Lemma splice_nil c batch : splice c batch [] = (λ a, c !! _key a) <$> batch.
Proof.
  induction batch as [|a rest IH]; simpl; [done|].
  destruct (c !! _key a); by rewrite IH.
Qed.

(** The second loop never leaves the list: it ends with the spliced output
    and with the cache written back. *)
Lemma merge_results_spec c batch : ∀ pre res t,
  merge_results
    (zip (zip (miss_index c (length pre) batch) (miss_batch c batch)) res)
    (pre ++ ((λ a, c !! _key a) <$> batch)) t
  = (Ok (pre ++ splice c batch res),
     with_cache (λ c', write_back c' (zip (miss_batch c batch) res)) t).
Proof.
  induction batch as [|a rest IH]; intros pre res t; simpl.
  - by rewrite with_cache_id.
  - unfold miss_batch. rewrite filter_cons.
    destruct (c !! _key a) as [o|] eqn:Hc.
    + rewrite !decide_False by done.
      specialize (IH (pre ++ [Some o]) res t).
      rewrite length_app in IH. simpl in IH. rewrite Nat.add_1_r in IH.
      rewrite <- !app_assoc in IH. exact IH.
    + rewrite !decide_True by done.
      destruct res as [|r res']; simpl.
      * rewrite splice_nil. by rewrite with_cache_id.
      * unfold mbind, M_bind, bind, modify, lift, list_set. simpl.
        rewrite decide_True by (rewrite length_app; simpl; lia).
        specialize (IH (pre ++ [Some r]) res').
        rewrite length_app in IH. simpl in IH. rewrite Nat.add_1_r in IH.
        rewrite <- !app_assoc in IH. simpl in IH.
        rewrite insert_app_r_alt by lia. rewrite Nat.sub_diag. simpl.
        by rewrite IH.
Qed.

(** [_submit_with_cache] in closed form. *)
Lemma submit_with_cache_eq batch t :
  _submit_with_cache batch t =
    let c := cache t in
    let misses := miss_batch c batch in
    let t1 := with_num (λ n, n + Z.of_nat (length batch))%Z t in
    if decide (misses = []) then (Ok (splice c batch []), t1)
    else
      let t2 := with_calls (λ h, h ++ [misses])
                  (with_actual (λ n, n + Z.of_nat (length misses))%Z t1) in
      match __call__ misses with
      | Ok res =>
          (Ok (splice c batch res),
           with_cache (λ c', write_back c' (zip misses res)) t2)
      | Raise e => (Raise e, t2)
      end.
Proof.
  unfold _submit_with_cache, call_model, mbind, M_bind, bind, modify, get, lift.
  cbn [cache with_num].
  rewrite (scan_batch_spec (cache t) batch 0 [] [] []). cbn [app].
  destruct (decide (miss_batch (cache t) batch = [])) as [Hm|Hm]; cbn zeta.
  - rewrite Hm. cbn. by rewrite splice_nil.
  - rewrite decide_True by (destruct (miss_batch (cache t) batch); [done | simpl; lia]).
    destruct (__call__ (miss_batch (cache t) batch)) as [res|e]; [|done].
    pose proof (merge_results_spec (cache t) batch [] res) as Hmr.
    cbn [length app] in Hmr. by rewrite Hmr.
Qed.

Lemma length_splice c batch : ∀ res, length (splice c batch res) = length batch.
Proof.
  induction batch as [|a rest IH]; intros res; simpl; [done|].
  destruct (c !! _key a); [simpl; by rewrite IH|].
  destruct res; simpl; by rewrite IH.
Qed.

(** Position by position: a hit reads the cache, the miss of rank [j] reads
    the [j]-th output of the model. *)
Lemma splice_lookup c batch : ∀ res i a,
  batch !! i = Some a →
  splice c batch res !! i
  = Some (match c !! _key a with
          | Some o => Some o
          | None => res !! length (miss_batch c (take i batch))
          end).
Proof.
  induction batch as [|b rest IH]; intros res i a Hi; [done|].
  unfold miss_batch in *. destruct i as [|i]; simpl in Hi.
  - injection Hi as ->. simpl. destruct (c !! _key a); [done|]. by destruct res.
  - simpl. rewrite filter_cons. destruct (c !! _key b) as [o|] eqn:Hb.
    + rewrite decide_False by done. simpl. by apply IH.
    + rewrite decide_True by done. destruct res as [|r res']; simpl.
      * rewrite (IH [] i a Hi). by destruct (c !! _key a).
      * by rewrite (IH res' i a Hi).
Qed.

Lemma length_miss_hit c batch :
  length (miss_batch c batch) + length (hit_batch c batch) = length batch.
Proof.
  unfold miss_batch, hit_batch.
  induction batch as [|a rest IH]; [done|]. rewrite !filter_cons.
  destruct (c !! _key a) as [o|] eqn:Hc.
  - rewrite decide_False by done. rewrite decide_True by eauto. simpl. lia.
  - rewrite decide_True by done.
    rewrite decide_False by (intros [? ?]; done). simpl. lia.
Qed.

(** ** The output of a cached submission *)

(** C1: when the model returns [res] on the miss batch (or the miss batch is
    empty and nothing is asked), [_submit_with_cache] returns an output list
    as long as the batch; at every position a hit holds the output stored in
    the cache and the miss of rank [j] (misses counted in batch order) holds
    the [j]-th output of the model; the model was called once, on the miss
    batch, unless that is empty; and the cache holds the outputs written
    back, pairing the misses with the outputs in order. *)
Theorem submit_with_cache_output batch t res :
  let c := cache t in
  let misses := miss_batch c batch in
  (misses = [] ∧ res = []) ∨ (misses ≠ [] ∧ __call__ misses = Ok res) →
  ∃ out t',
    _submit_with_cache batch t = (Ok out, t') ∧
    length out = length batch ∧
    (∀ i a, batch !! i = Some a →
       out !! i = Some (match c !! _key a with
                        | Some o => Some o
                        | None => res !! length (miss_batch c (take i batch))
                        end)) ∧
    model_calls t' = model_calls t ++ (if decide (misses = []) then [] else [misses]) ∧
    cache t' = write_back c (zip misses res).
Proof.
  intros c misses Hres. subst c misses.
  exists (splice (cache t) batch res). rewrite submit_with_cache_eq. cbn zeta.
  destruct Hres as [[Hm ->]|[Hm Hcall]].
  - rewrite !decide_True by done. eexists. split; [done|].
    split; [apply length_splice|]. split; [intros; by apply splice_lookup|].
    simpl. rewrite app_nil_r. split; [done|]. by rewrite Hm.
  - rewrite !decide_False by done. rewrite Hcall. eexists. split; [done|].
    split; [apply length_splice|]. split; [intros; by apply splice_lookup|].
    done.
Qed.

(** ** Batching *)

(** C3: a cached submission of [n] inputs of which [m] have their key in the
    cache issues one model call, carrying the [n - m] misses, and no model
    call at all when [m = n]; this holds whether the model returns or
    raises. *)
Theorem submit_with_cache_model_calls batch t :
  let c := cache t in
  let t' := (_submit_with_cache batch t).2 in
  let n := length batch in
  let m := length (hit_batch c batch) in
  m ≤ n ∧
  length (miss_batch c batch) = n - m ∧
  model_calls t' =
    model_calls t ++ (if decide (m = n) then [] else [miss_batch c batch]).
Proof.
  cbn zeta. pose proof (length_miss_hit (cache t) batch) as Hlen.
  split; [lia|]. split; [lia|].
  rewrite submit_with_cache_eq. cbn zeta.
  destruct (decide (miss_batch (cache t) batch = [])) as [Hm|Hm].
  - rewrite Hm in Hlen. simpl in Hlen. rewrite decide_True by lia.
    simpl. by rewrite app_nil_r.
  - rewrite decide_False.
    2:{ intros Heq. apply Hm. apply length_zero_iff_nil. lia. }
    by destruct (__call__ (miss_batch (cache t) batch)).
Qed.

(** ** The evaluation counters *)

Lemma submit_with_cache_counters batch t :
  let t' := (_submit_with_cache batch t).2 in
  num_evaluations t' = (num_evaluations t + Z.of_nat (length batch))%Z ∧
  actual_evaluations t' =
    (actual_evaluations t + Z.of_nat (length (miss_batch (cache t) batch)))%Z.
Proof.
  cbn zeta. rewrite submit_with_cache_eq. cbn zeta.
  destruct (decide (miss_batch (cache t) batch = [])) as [Hm|Hm].
  - rewrite Hm. simpl. split; [done | lia].
  - by destruct (__call__ (miss_batch (cache t) batch)).
Qed.

Lemma submit_counters batch t :
  let t' := (_submit batch t).2 in
  num_evaluations t' = (num_evaluations t + Z.of_nat (length batch))%Z ∧
  actual_evaluations t' = (actual_evaluations t + Z.of_nat (length batch))%Z.
Proof.
  cbn zeta. unfold _submit, call_model, mbind, M_bind, bind, modify, lift. simpl.
  by destruct (__call__ batch).
Qed.

Lemma submit_batch_gap s t :
  (actual_evaluations t ≤ num_evaluations t)%Z →
  (actual_evaluations (submit_batch s t) ≤ num_evaluations (submit_batch s t))%Z.
Proof.
  intros Hle. destruct s as [batch|batch]; unfold submit_batch.
  - destruct (submit_with_cache_counters batch t) as [-> ->].
    pose proof (length_miss_hit (cache t) batch). lia.
  - destruct (submit_counters batch t) as [-> ->]. lia.
Qed.

Lemma run_submissions_gap calls : ∀ t,
  (actual_evaluations t ≤ num_evaluations t)%Z →
  (actual_evaluations (run_submissions calls t)
     ≤ num_evaluations (run_submissions calls t))%Z.
Proof.
  induction calls as [|s calls IH]; intros t Hle; [done|].
  simpl. apply IH. by apply submit_batch_gap.
Qed.

(** C4: a cached submission adds the number of inputs to [num_evaluations]
    and the size of the miss batch to [actual_evaluations]; an uncached one
    adds the number of inputs to both; so, from equal counters, after every
    call of any sequence of cached and uncached submissions
    [actual_evaluations] is at most [num_evaluations]. *)
Theorem evaluation_counters :
  (∀ batch t,
     let t' := (_submit_with_cache batch t).2 in
     num_evaluations t' = (num_evaluations t + Z.of_nat (length batch))%Z ∧
     actual_evaluations t' =
       (actual_evaluations t + Z.of_nat (length (miss_batch (cache t) batch)))%Z) ∧
  (∀ batch t,
     let t' := (_submit batch t).2 in
     num_evaluations t' = (num_evaluations t + Z.of_nat (length batch))%Z ∧
     actual_evaluations t' = (actual_evaluations t + Z.of_nat (length batch))%Z) ∧
  (∀ calls t,
     actual_evaluations t = num_evaluations t →
     ∀ n, let t' := run_submissions (take n calls) t in
          (actual_evaluations t' ≤ num_evaluations t')%Z).
Proof.
  split; [exact submit_with_cache_counters|].
  split; [exact submit_counters|].
  intros calls t Heq n. cbn zeta. apply run_submissions_gap. lia.
Qed.

(** ** Cache correctness *)

Lemma miss_batch_hit1 c (a : ndarray) o :
  c !! _key a = Some o → miss_batch c [a] = [].
Proof.
  intros Ho. unfold miss_batch. rewrite filter_cons, filter_nil.
  rewrite decide_False; [done|]. by rewrite Ho.
Qed.

Lemma miss_batch_miss1 c (a : ndarray) :
  c !! _key a = None → miss_batch c [a] = [a].
Proof.
  intros Ho. unfold miss_batch. rewrite filter_cons, filter_nil.
  by rewrite decide_True.
Qed.

Lemma submit_with_cache_hit1 (a : ndarray) t o :
  cache t !! _key a = Some o →
  ∃ t', _submit_with_cache [a] t = (Ok [Some o], t') ∧
        actual_evaluations t' = actual_evaluations t ∧
        model_calls t' = model_calls t ∧
        cache t' = cache t.
Proof.
  intros Ho. rewrite submit_with_cache_eq. cbn zeta.
  rewrite (miss_batch_hit1 _ _ _ Ho). rewrite decide_True by done.
  cbn [splice]. rewrite Ho. by eexists.
Qed.

(** C2: for inputs [A] and [B] with the same bytes, where the model keeps
    its contract on [[A]] if it has to be asked, submitting [[A]] and then
    [[B]] through the cache gives [B] the output given to [A], and the
    second submission neither raises [actual_evaluations] nor calls the
    model. *)
Theorem cache_hit_on_identical_bytes (A B : ndarray) t :
  data A = data B →
  (cache t !! _key A = None → ∃ res, answers [A] res) →
  ∃ o t1 t2,
    _submit_with_cache [A] t = (Ok [Some o], t1) ∧
    _submit_with_cache [B] t1 = (Ok [Some o], t2) ∧
    actual_evaluations t2 = actual_evaluations t1 ∧
    model_calls t2 = model_calls t1.
Proof.
  intros Hdata Hmodel.
  assert (Hkey : _key B = _key A) by (unfold _key; done).
  assert (Hfirst : ∃ o t1, _submit_with_cache [A] t = (Ok [Some o], t1) ∧
                           cache t1 !! _key A = Some o).
  { destruct (cache t !! _key A) as [o|] eqn:Hc.
    - destruct (submit_with_cache_hit1 A t o Hc) as (t1 & H1 & _ & _ & Hc1).
      exists o, t1. split; [done|]. by rewrite Hc1.
    - destruct Hmodel as (res & Hcall & Hlen); [done|].
      destruct res as [|o [|? ?]]; try done.
      exists o. rewrite submit_with_cache_eq. cbn zeta.
      rewrite (miss_batch_miss1 _ _ Hc). rewrite decide_False by done.
      rewrite Hcall. cbn [splice]. rewrite Hc.
      eexists. split; [done|]. simpl. apply lookup_insert_eq. }
  destruct Hfirst as (o & t1 & H1 & Ho). rewrite <- Hkey in Ho.
  destruct (submit_with_cache_hit1 B t1 o Ho) as (t2 & H2 & Ha & Hm & _).
  by exists o, t1, t2.
Qed.

(** ** What the cache holds after a cached submission *)

Lemma miss_batch_app c batch1 batch2 :
  miss_batch c (batch1 ++ batch2) = miss_batch c batch1 ++ miss_batch c batch2.
Proof. unfold miss_batch. apply filter_app. Qed.

Lemma miss_batch_elem c batch (a : ndarray) :
  a ∈ miss_batch c batch → c !! _key a = None.
Proof. unfold miss_batch. rewrite list_elem_of_filter. tauto. Qed.

Lemma splice_app c batch1 batch2 : ∀ res,
  splice c (batch1 ++ batch2) res
  = splice c batch1 res ++ splice c batch2 (drop (length (miss_batch c batch1)) res).
Proof.
  unfold miss_batch.
  induction batch1 as [|a rest IH]; intros res; [done|].
  rewrite filter_cons. simpl. destruct (c !! _key a) as [o|] eqn:Hc.
  - rewrite decide_False by done. by rewrite IH.
  - rewrite decide_True by done. destruct res as [|r res']; simpl.
    + rewrite IH. by rewrite !drop_nil.
    + by rewrite IH.
Qed.

(** Outputs beyond the miss batch are not looked at. *)
Lemma splice_extra c batch : ∀ res extra,
  length res = length (miss_batch c batch) →
  splice c batch (res ++ extra) = splice c batch res.
Proof.
  unfold miss_batch.
  induction batch as [|a rest IH]; intros res extra Hlen; [done|].
  rewrite filter_cons in Hlen. simpl. destruct (c !! _key a) as [o|] eqn:Hc.
  - rewrite decide_False in Hlen by done. by rewrite IH.
  - rewrite decide_True in Hlen by done. destruct res as [|r res']; [done|].
    simpl in *. rewrite IH; [done | lia].
Qed.

Lemma write_back_snoc c zs (z : ndarray * output) :
  write_back c (zs ++ [z]) = <[_key z.1 := z.2]> (write_back c zs).
Proof. unfold write_back. by rewrite foldl_app. Qed.

(** A key that no written input carries keeps its entry. *)
Lemma write_back_untouched c (zs : list (ndarray * output)) (k : bytes) :
  (∀ z, z ∈ zs → _key z.1 ≠ k) → write_back c zs !! k = c !! k.
Proof.
  induction zs as [|z zs IH] using rev_ind; intros Hne; [done|].
  rewrite write_back_snoc. rewrite lookup_insert_ne.
  - apply IH. intros z' Hz'. apply Hne. apply elem_of_app. by left.
  - apply Hne. apply elem_of_app. right. by apply list_elem_of_singleton.
Qed.

Lemma write_back_hit c batch res (k : bytes) o :
  c !! k = Some o → write_back c (zip (miss_batch c batch) res) !! k = Some o.
Proof.
  intros Ho. rewrite write_back_untouched; [done|].
  intros [a r] Hz Hk. simpl in Hk. subst k.
  apply elem_of_zip_l in Hz. apply miss_batch_elem in Hz. simpl in Hz. congruence.
Qed.

(** After the write-back every key of the batch is in the cache, with the
    output spliced at the last position of the batch that carries the key. *)
Lemma write_back_last c batch : ∀ res,
  length res = length (miss_batch c batch) →
  ∀ i a, batch !! i = Some a →
  ∃ o j b,
    write_back c (zip (miss_batch c batch) res) !! _key a = Some o ∧
    i ≤ j ∧ batch !! j = Some b ∧ _key b = _key a ∧
    splice c batch res !! j = Some (Some o) ∧
    (∀ j' b', j < j' → batch !! j' = Some b' → _key b' ≠ _key a).
Proof.
  induction batch as [|x batch IH] using rev_ind; intros res Hlen i a Hi; [done|].
  rewrite miss_batch_app in Hlen |- *. rewrite splice_app.
  assert (Hlast : ∀ rs o,
    (splice c batch rs ++ [Some o]) !! length batch = Some (Some o)).
  { intros rs o. rewrite lookup_app_r by (rewrite length_splice; lia).
    rewrite length_splice, Nat.sub_diag. done. }
  assert (Hbeyond : ∀ j' b', length batch < j' →
    (batch ++ [x]) !! j' = Some b' → _key b' ≠ _key a).
  { intros j' b' Hj' Hb'. apply lookup_lt_Some in Hb'.
    rewrite length_app in Hb'. simpl in Hb'. lia. }
  assert (Hi' : i ≤ length batch).
  { apply lookup_lt_Some in Hi. rewrite length_app in Hi. simpl in Hi. lia. }
  destruct (c !! _key x) as [ox|] eqn:Hx.
  - (* the last input is a hit *)
    rewrite (miss_batch_hit1 c x ox Hx) in Hlen |- *. rewrite app_nil_r in Hlen |- *.
    cbn [splice]. rewrite Hx.
    destruct (decide (_key a = _key x)) as [Hk|Hk].
    + exists ox, (length batch), x. rewrite Hk.
      split; [by apply write_back_hit|]. split; [done|].
      split; [by rewrite list_lookup_middle|]. split; [done|].
      split; [apply Hlast|]. rewrite <- Hk. exact Hbeyond.
    + assert (Hi2 : batch !! i = Some a).
      { destruct (decide (i = length batch)) as [->|Hne].
        - rewrite list_lookup_middle in Hi by done. congruence.
        - rewrite lookup_app_l in Hi by lia. done. }
      destruct (IH res Hlen i a Hi2) as (o & j & b & Hc & Hij & Hj & Hkb & Hs & Hl).
      exists o, j, b. split; [done|]. split; [done|].
      pose proof (lookup_lt_Some _ _ _ Hj) as Hjlt.
      split; [by rewrite lookup_app_l|]. split; [done|].
      split; [rewrite lookup_app_l; [done | by rewrite length_splice]|].
      intros j' b' Hj' Hb'. destruct (decide (j' < length batch)) as [Hlt|Hge].
      * rewrite lookup_app_l in Hb' by done. by eapply Hl.
      * destruct (decide (j' = length batch)) as [->|Hne].
        -- rewrite list_lookup_middle in Hb' by done. congruence.
        -- apply Hbeyond with j'; [lia | done].
  - (* the last input is a miss *)
    rewrite (miss_batch_miss1 c x Hx) in Hlen |- *.
    rewrite length_app in Hlen. simpl in Hlen.
    destruct res as [|r res _] using rev_ind; [simpl in Hlen; lia|].
    rewrite length_app in Hlen. simpl in Hlen.
    assert (Hlen' : length res = length (miss_batch c batch)) by lia.
    rewrite zip_with_app by done. simpl. rewrite write_back_snoc. simpl.
    rewrite splice_extra by done.
    rewrite drop_app_length' by done. cbn [splice]. rewrite Hx.
    destruct (decide (_key a = _key x)) as [Hk|Hk].
    + exists r, (length batch), x. rewrite Hk.
      split; [apply lookup_insert_eq|]. split; [done|].
      split; [by rewrite list_lookup_middle|]. split; [done|].
      split; [apply Hlast|]. rewrite <- Hk. exact Hbeyond.
    + assert (Hi2 : batch !! i = Some a).
      { destruct (decide (i = length batch)) as [->|Hne].
        - rewrite list_lookup_middle in Hi by done. congruence.
        - rewrite lookup_app_l in Hi by lia. done. }
      destruct (IH res Hlen' i a Hi2) as (o & j & b & Hc & Hij & Hj & Hkb & Hs & Hl).
      exists o, j, b. split; [by rewrite lookup_insert_ne|]. split; [done|].
      pose proof (lookup_lt_Some _ _ _ Hj) as Hjlt.
      split; [by rewrite lookup_app_l|]. split; [done|].
      split; [rewrite lookup_app_l; [done | by rewrite length_splice]|].
      intros j' b' Hj' Hb'. destruct (decide (j' < length batch)) as [Hlt|Hge].
      * rewrite lookup_app_l in Hb' by done. by eapply Hl.
      * destruct (decide (j' = length batch)) as [->|Hne].
        -- rewrite list_lookup_middle in Hb' by done. congruence.
        -- apply Hbeyond with j'; [lia | done].
Qed.

(** C10, as amended: when the model keeps its contract on the miss batch
    (one output per submitted input, in order), after [_submit_with_cache]
    returns the key of every input of the batch is in the cache, and the
    value cached for it is the output returned at the last position of the
    batch whose input carries that key; it is the output at the input's own
    position whenever no later input of the batch carries the same key. *)
Theorem submit_with_cache_fills_cache batch t :
  (miss_batch (cache t) batch ≠ [] →
   ∃ res, answers (miss_batch (cache t) batch) res) →
  ∃ out t',
    _submit_with_cache batch t = (Ok out, t') ∧
    ∀ i a, batch !! i = Some a →
      ∃ o, cache t' !! _key a = Some o ∧
        (∃ j b, i ≤ j ∧ batch !! j = Some b ∧ _key b = _key a ∧
                out !! j = Some (Some o) ∧
                ∀ j' b', j < j' → batch !! j' = Some b' → _key b' ≠ _key a) ∧
        ((∀ j' b', i < j' → batch !! j' = Some b' → _key b' ≠ _key a) →
         out !! i = Some (Some o)).
Proof.
  intros Hmodel. rewrite submit_with_cache_eq. cbn zeta.
  assert (Hgoal : ∀ res t',
    length res = length (miss_batch (cache t) batch) →
    cache t' = write_back (cache t) (zip (miss_batch (cache t) batch) res) →
    ∀ i a, batch !! i = Some a →
      ∃ o, cache t' !! _key a = Some o ∧
        (∃ j b, i ≤ j ∧ batch !! j = Some b ∧ _key b = _key a ∧
                splice (cache t) batch res !! j = Some (Some o) ∧
                ∀ j' b', j < j' → batch !! j' = Some b' → _key b' ≠ _key a) ∧
        ((∀ j' b', i < j' → batch !! j' = Some b' → _key b' ≠ _key a) →
         splice (cache t) batch res !! i = Some (Some o))).
  { intros res t' Hlen Hc i a Hi. rewrite Hc.
    destruct (write_back_last (cache t) batch res Hlen i a Hi)
      as (o & j & b & Hw & Hij & Hj & Hkb & Hs & Hl).
    exists o. split; [done|]. split; [by exists j, b|].
    intros Hnolater. destruct (decide (i = j)) as [->|Hne]; [done|].
    exfalso. apply (Hnolater j b); [lia | done | done]. }
  destruct (decide (miss_batch (cache t) batch = [])) as [Hm|Hm].
  - eexists _, _. split; [done|]. apply Hgoal; [by rewrite Hm|].
    rewrite Hm. done.
  - destruct (Hmodel Hm) as (res & Hcall & Hlen). rewrite Hcall.
    eexists _, _. split; [done|]. by apply Hgoal.
Qed.

(** ** Querying the attacks by status *)

(** C9, as amended: [get_attacks] returns all attacks when no status is
    given and for every falsy status value ([None], [False], zero, the
    empty string), whatever the membership test would answer for it; for
    an attack status it returns exactly the attacks whose status equals
    it. *)
Theorem get_attacks_spec (other : pyval → result bool) t :
  get_attacks other t PNone = Ok (AnswerDict (attacks t)) ∧
  (∀ st, st ∈ [PNone; PBool false; PInt 0; PStr EmptyString] →
         get_attacks other t st = Ok (AnswerDict (attacks t))) ∧
  (∀ s, ∃ d, get_attacks other t (PStatus s) = Ok (AnswerDict d) ∧
             ∀ k a, d !! k = Some a ↔ attacks t !! k = Some a ∧ status a = s).
Proof.
  split; [done|]. split.
  - intros st Hst. unfold get_attacks.
    repeat (apply elem_of_cons in Hst as [->|Hst]; [done|]).
    by apply elem_of_nil in Hst.
  - intros s. eexists. split; [done|]. intros k a.
    rewrite map_lookup_filter_Some. simpl. split.
    + intros [Hk Hs]. split; [done|]. congruence.
    + intros [Hk Hs]. split; [done|]. congruence.
Qed.

(** Asked for a truthy value that is no attack status, [get_attacks]
    follows the membership test: it raises what the test raises, before the
    branch that returns [False] is reached; it returns [False] where the
    test answers [False]; and where the test answers [True] it returns the
    attacks whose status equals the value, of which there are none. *)
Lemma get_attacks_other_operand (other : pyval → result bool) t st :
  truthy st = true → (∀ s, st ≠ PStatus s) →
  get_attacks other t st
  = match other st with
    | Raise e => Raise e
    | Ok false => Ok AnswerFalse
    | Ok true => Ok (AnswerDict ∅)
    end.
Proof.
  intros Hst Hno. unfold get_attacks, in_AttackStatus. rewrite Hst. simpl.
  destruct st as [|b|z|str|s]; try by destruct (Hno s).
  all: destruct (other _) as [[|]|e]; try done.
  all: do 2 f_equal; apply map_eq; intros k; rewrite lookup_empty.
  all: apply map_lookup_filter_None; right; intros a _ Hs; simpl in Hs.
  all: by eapply Hno.
Qed.

(** ** The success check *)

Lemma results_query_found t (a : @attack output label) k d :
  active_attack t = Some a → results a !! k = Some (RQuery d) →
  results_query k t = (Ok d, t).
Proof.
  intros Ha Hk. unfold results_query, the_attack, mbind, M_bind, bind.
  rewrite Ha. by rewrite Hk.
Qed.

Lemma check_attack_success_eq t (a : @attack output label) fin ini :
  active_attack t = Some a →
  results a !! "final" = Some (RQuery fin) →
  results a !! "initial" = Some (RQuery ini) →
  check_attack_success t
  = (success_of (parameters a) (target_class a) (model_output_classes t)
       (d_label fin) (d_label ini), t).
Proof.
  intros Ha Hf Hi. unfold check_attack_success, success_of.
  unfold mbind at 1. unfold M_bind at 1. unfold bind at 1.
  rewrite (results_query_found t a _ fin Ha Hf).
  unfold mbind at 1. unfold M_bind at 1. unfold bind at 1.
  rewrite (results_query_found t a _ ini Ha Hi).
  unfold mbind at 1. unfold M_bind at 1. unfold bind at 1.
  unfold the_attack at 1. rewrite Ha.
  destruct (targeted (parameters a)); [|done].
  unfold mbind, M_bind, bind, get, lift, ret.
  destruct (target_class a) as [z|zs].
  - by destruct (np_item (model_output_classes t) z).
  - by destruct (np_items (model_output_classes t) zs).
Qed.

Lemma np_index_from_start (classes : list label) z lab :
  (0 ≤ z)%Z → classes !! Z.to_nat z = Some lab → np_index classes z = Ok lab.
Proof.
  intros Hz Hl. unfold np_index. apply lookup_lt_Some in Hl as Hlt.
  destruct (z <? 0)%Z eqn:Hneg; [lia|].
  replace ((0 <=? z) && (z <? Z.of_nat (length classes)))%Z with true
    by (symmetry; apply andb_true_iff; lia).
  by rewrite Hl.
Qed.

Lemma np_index_from_end (classes : list label) z lab :
  (z < 0)%Z → (0 ≤ z + Z.of_nat (length classes))%Z →
  classes !! Z.to_nat (z + Z.of_nat (length classes)) = Some lab →
  np_index classes z = Ok lab.
Proof.
  intros Hz Hn Hl. unfold np_index.
  destruct (z <? 0)%Z eqn:Hneg; [|lia].
  replace ((0 <=? z + Z.of_nat (length classes))
           && (z + Z.of_nat (length classes) <? Z.of_nat (length classes)))%Z
    with true by (symmetry; apply andb_true_iff; lia).
  by rewrite Hl.
Qed.

Lemma np_item_fits (classes : list label) z :
  (- 2 ^ 63 ≤ z < 2 ^ 63)%Z → np_item classes z = np_index classes z.
Proof.
  intros Hz. unfold np_item.
  replace ((- 2 ^ 63 <=? z) && (z <? 2 ^ 63))%Z with true; [done|].
  symmetry. apply andb_true_iff. lia.
Qed.

(** C7: with the initial and the final query recorded,
    [check_attack_success] reads nothing but the two recorded label lists
    (with the parameters, the target class and the vocabulary) and leaves
    the target as it is. When the parameters hold targeted = true, each
    final label is compared with the vocabulary entry the target class
    selects, true exactly where they are equal: the entry at the position
    of a target class that is not negative, the entry counted from the end
    for a negative one, and position by position the entries of a vector
    of target classes. When the parameters hold no entry targeted, or hold
    targeted = false, each final label is compared with the initial label
    at its position, true exactly where they differ. *)
Theorem check_attack_success_spec t (a : @attack output label) fin ini :
  active_attack t = Some a →
  results a !! "final" = Some (RQuery fin) →
  results a !! "initial" = Some (RQuery ini) →
  (∀ z lab, parameters a !! "targeted" = Some (PBool true) →
     target_class a = TCInt z → (0 ≤ z < 2 ^ 63)%Z →
     model_output_classes t !! Z.to_nat z = Some lab →
     check_attack_success t
     = (Ok ((λ l, bool_decide (l = lab)) <$> d_label fin), t)) ∧
  (∀ z lab, parameters a !! "targeted" = Some (PBool true) →
     target_class a = TCInt z → (- 2 ^ 63 ≤ z < 0)%Z →
     (0 ≤ z + Z.of_nat (length (model_output_classes t)))%Z →
     model_output_classes t
       !! Z.to_nat (z + Z.of_nat (length (model_output_classes t))) = Some lab →
     check_attack_success t
     = (Ok ((λ l, bool_decide (l = lab)) <$> d_label fin), t)) ∧
  (∀ zs labs, parameters a !! "targeted" = Some (PBool true) →
     target_class a = TCList zs →
     Forall2 (λ z lab,
        (0 ≤ z)%Z ∧ model_output_classes t !! Z.to_nat z = Some lab ∨
        (z < 0)%Z ∧ (0 ≤ z + Z.of_nat (length (model_output_classes t)))%Z ∧
        model_output_classes t
          !! Z.to_nat (z + Z.of_nat (length (model_output_classes t))) = Some lab)
       zs labs →
     length (d_label fin) = length labs →
     check_attack_success t
     = (Ok (zip_with (λ l lab, bool_decide (l = lab)) (d_label fin) labs), t)) ∧
  (parameters a !! "targeted" = None ∨
   parameters a !! "targeted" = Some (PBool false) →
     length (d_label fin) = length (d_label ini) →
     check_attack_success t
     = (Ok (zip_with (λ new old, negb (bool_decide (new = old)))
              (d_label fin) (d_label ini)), t)) ∧
  (∀ t2 (a2 : @attack output label) fin2 ini2,
     active_attack t2 = Some a2 →
     results a2 !! "final" = Some (RQuery fin2) →
     results a2 !! "initial" = Some (RQuery ini2) →
     d_label fin2 = d_label fin → d_label ini2 = d_label ini →
     parameters a2 = parameters a → target_class a2 = target_class a →
     model_output_classes t2 = model_output_classes t →
     (check_attack_success t2).1 = (check_attack_success t).1 ∧
     (check_attack_success t2).2 = t2).
Proof.
  intros Ha Hf Hi. rewrite (check_attack_success_eq t a fin ini Ha Hf Hi).
  split; [|split; [|split; [|split]]].
  - intros z lab Hp Htc Hz Hl. unfold success_of, targeted.
    rewrite Hp, Htc. simpl. rewrite np_item_fits by lia.
    by rewrite (np_index_from_start _ z lab) by (done || lia).
  - intros z lab Hp Htc Hz Hn Hl. unfold success_of, targeted.
    rewrite Hp, Htc. simpl. rewrite np_item_fits by lia.
    by rewrite (np_index_from_end _ z lab) by (done || lia).
  - intros zs labs Hp Htc Hsel Hlen. unfold success_of, targeted.
    rewrite Hp, Htc. simpl.
    assert (np_items (model_output_classes t) zs = Ok labs) as ->.
    { clear Hlen Htc. induction Hsel as [|z lab zs labs Hz _ IH]; [done|].
      cbn [np_items]. rewrite IH.
      destruct Hz as [[Hz Hl]|(Hz & Hn & Hl)].
      - by rewrite (np_index_from_start _ z lab).
      - by rewrite (np_index_from_end _ z lab). }
    unfold np_compare. by rewrite decide_True.
  - intros Hp Hlen. unfold success_of, np_compare, targeted.
    destruct Hp as [-> | ->]; simpl; by rewrite decide_True.
  - intros t2 a2 fin2 ini2 Ha2 Hf2 Hi2 Hfl Hil Hp Htc Hcl.
    rewrite (check_attack_success_eq t2 a2 fin2 ini2 Ha2 Hf2 Hi2). simpl.
    by rewrite Hfl, Hil, Hp, Htc, Hcl.
Qed.

(** ** The labels of a list of outputs *)

Lemma outputs_to_labels_eq (out : list output) t :
  outputs_to_labels out t
  = (match out with
     | [] => Raise ValueError
     | _ => select_labels (model_output_classes t) (argmax <$> out)
     end, t).
Proof. by destruct out. Qed.

(** ** Relations preserved by the methods *)

Section Preserves.
Context (R : @target output label → @target output label → Prop) `{!PreOrder R}.

Lemma preserves_ret {A} (a : A) : preserves R (mret a).
Proof. intros t r t' [= <- <-]. reflexivity. Qed.

Lemma preserves_raise {A} e : preserves R (@raise _ _ A e).
Proof. intros t r t' [= <- <-]. reflexivity. Qed.

Lemma preserves_get {A} (g : @target output label → A) : preserves R (get g).
Proof. intros t r t' [= <- <-]. reflexivity. Qed.

Lemma preserves_lift {A} (x : result A) : preserves R (lift x).
Proof. intros t r t' [= <- <-]. reflexivity. Qed.

Lemma preserves_the_attack : preserves R the_attack.
Proof.
  intros t r t'. unfold the_attack.
  destruct (active_attack t); intros [= <- <-]; reflexivity.
Qed.

Lemma preserves_modify g : (∀ t, R t (g t)) → preserves R (modify g).
Proof. intros Hg t r t' [= <- <-]. apply Hg. Qed.

Lemma preserves_bind {A B} (m : M A) (k : A → M B) :
  preserves R m → (∀ a, preserves R (k a)) → preserves R (m ≫= k).
Proof.
  intros Hm Hk t r t'. unfold mbind, M_bind, bind.
  destruct (m t) as [[a|e] t1] eqn:Hmt.
  - intros Hkt. transitivity t1; [by eapply Hm | by eapply Hk].
  - intros [= <- <-]. by eapply Hm.
Qed.

Lemma preserves_on_raise_bind {A B} (m : M A) (k : A → M B) :
  preserves R m → (∀ a, preserves_on_raise R (k a)) →
  preserves_on_raise R (m ≫= k).
Proof.
  intros Hm Hk t e t'. unfold mbind, M_bind, bind.
  destruct (m t) as [[a|e1] t1] eqn:Hmt.
  - intros Hkt. transitivity t1; [by eapply Hm | by eapply Hk].
  - intros [= <- <-]. by eapply Hm.
Qed.

Lemma preserves_on_raise_weaken {A} (m : M A) :
  preserves R m → preserves_on_raise R m.
Proof. intros Hm t e t' Hrun. by eapply Hm. Qed.

Lemma preserves_results_query k : preserves R (results_query k).
Proof.
  unfold results_query. apply preserves_bind; [apply preserves_the_attack|].
  intros a. destruct (results a !! k) as [[d|z|z]|];
    first [apply preserves_ret | apply preserves_raise].
Qed.

Lemma preserves_update_attack g :
  (∀ t a, active_attack t = Some a → R t (with_active (Some (g a)) t)) →
  preserves R (update_attack g).
Proof.
  intros Hg t r t'. unfold update_attack, the_attack, mbind, M_bind, bind, modify.
  destruct (active_attack t) as [a|] eqn:Ha; intros [= <- <-];
    [by apply Hg | reflexivity].
Qed.

(** [update_attack] changes nothing when it raises. *)
Lemma preserves_on_raise_update_attack g : preserves_on_raise R (update_attack g).
Proof.
  intros t e t'. unfold update_attack, the_attack, mbind, M_bind, bind, modify.
  destruct (active_attack t) as [a|] eqn:Ha; intros [= <- <-]. reflexivity.
Qed.

Lemma preserves_outputs_to_labels out : preserves R (outputs_to_labels out).
Proof.
  unfold outputs_to_labels. destruct out as [|o out]; [apply preserves_raise|].
  apply preserves_bind; [apply preserves_get|].
  intros classes. apply preserves_lift.
Qed.

End Preserves.

#[local] Instance keeps_preorder {B} (f : @target output label → B) : PreOrder (keeps f).
Proof.
  split; [done|]. intros t1 t2 t3 H12 H23. unfold keeps in *. congruence.
Qed.

Lemma keeps_runner_view t t' :
  keeps runner_view t t' →
  keeps gap t t' ∧ keeps session_view t t' ∧ keeps cache t t'.
Proof. unfold keeps, runner_view. intros [= -> -> ->]. done. Qed.

Lemma submit_keeps batch : preserves (keeps runner_view) (_submit batch).
Proof.
  intros t r t'. unfold _submit, call_model, mbind, M_bind, bind, modify, lift.
  simpl. intros [= <- <-]. unfold keeps, runner_view, gap, session_view. simpl.
  f_equal. f_equal. lia.
Qed.

Lemma append_logs_keeps name id (zs : list (ndarray * output * label)) :
  preserves (keeps runner_view) (append_logs name id zs).
Proof.
  induction zs as [|[[i o] l] zs IH]; simpl; [apply preserves_ret; apply _|].
  apply preserves_bind; [apply _ | apply preserves_get; apply _ |].
  intros model_id. apply preserves_bind; [apply _ | | by intros _].
  apply preserves_update_attack; [apply _|].
  intros t a Ha. unfold keeps, runner_view, gap, session_view. simpl.
  by rewrite Ha.
Qed.

Lemma submit_with_logging_keeps batch name id :
  preserves (keeps runner_view) (_submit_with_logging batch name id).
Proof.
  unfold _submit_with_logging.
  apply preserves_bind; [apply _ | apply submit_keeps |]. intros out.
  apply preserves_bind; [apply _ | apply preserves_outputs_to_labels; apply _ |].
  intros lab. apply preserves_bind; [apply _ | apply append_logs_keeps |].
  intros _. apply preserves_ret; apply _.
Qed.

Lemma submit_sample_keeps logging name id batch :
  preserves (keeps runner_view) (submit_sample logging name id batch).
Proof.
  destruct logging; [apply submit_with_logging_keeps | apply submit_keeps].
Qed.

(** However many batches the attack submits, and whether it returns or
    raises, it leaves the gap, the session's status and results and the
    cache as they were. *)
Lemma exec_runner_keeps logging name id (r : @runner output) :
  preserves (keeps runner_view) (exec_runner logging name id r).
Proof.
  induction r as [adv|e|batch k IH]; simpl.
  - apply preserves_ret; apply _.
  - apply preserves_raise; apply _.
  - intros t r t' Hrun.
    destruct (submit_sample logging name id batch t) as [res t1] eqn:Hs.
    transitivity t1; [by eapply submit_sample_keeps | by eapply IH].
Qed.

(** ** The running phase *)

Lemma preserves_weaken {A} (R R' : @target output label → @target output label → Prop)
    (m : M A) :
  (∀ t t', R t t' → R' t t') → preserves R m → preserves R' m.
Proof. intros HR Hm t r t' Hrun. apply HR. by eapply Hm. Qed.

Lemma update_attack_keeps_gap g :
  preserves (keeps gap) (update_attack (output:=output) (label:=label) g).
Proof. apply preserves_update_attack; [apply _|]. done. Qed.

Lemma exec_runner_keeps_gap logging name id (r : @runner output) :
  preserves (keeps gap) (exec_runner (label:=label) logging name id r).
Proof.
  eapply preserves_weaken; [|apply exec_runner_keeps].
  intros t t' Hk. by apply keeps_runner_view in Hk as (? & ? & ?).
Qed.

Lemma run_art_attack_keeps_gap logging :
  preserves (keeps gap) (_run_art_attack (output:=output) (label:=label) logging).
Proof.
  unfold _run_art_attack.
  apply preserves_bind; [apply _ | apply preserves_the_attack; apply _ |].
  intros a. apply preserves_bind; [apply _ | apply exec_runner_keeps_gap |].
  intros adv. apply preserves_bind; [apply _ | apply update_attack_keeps_gap |].
  intros _. apply preserves_ret; apply _.
Qed.

Lemma run_textattack_attack_keeps_gap logging :
  preserves (keeps gap) (_run_textattack_attack (output:=output) (label:=label) logging).
Proof.
  unfold _run_textattack_attack.
  apply preserves_bind; [apply _ | apply preserves_the_attack; apply _ |].
  intros a. apply preserves_bind; [apply _ | apply preserves_results_query; apply _ |].
  intros ini. apply preserves_bind; [apply _ | apply exec_runner_keeps_gap |].
  intros adv. apply preserves_bind; [apply _ | apply update_attack_keeps_gap |].
  intros _. apply preserves_ret; apply _.
Qed.

(** Whatever the attack does, every submission of the running phase goes
    to the model: the two counters grow together. *)
Lemma run_attack_inner_keeps_gap logging :
  preserves (keeps gap) (_run_attack (output:=output) (label:=label) logging).
Proof.
  unfold _run_attack.
  apply preserves_bind; [apply _ | apply preserves_get; apply _ |].
  intros [| | |];
    [apply preserves_raise; apply _ | apply run_art_attack_keeps_gap
    | apply run_textattack_attack_keeps_gap | apply run_art_attack_keeps_gap].
Qed.

(** A running phase that raises leaves the status and the results of the
    session untouched: the status is set after the attack has returned. *)
Lemma run_attack_inner_raise logging :
  preserves_on_raise (keeps runner_view)
    (_run_attack (output:=output) (label:=label) logging).
Proof.
  assert (Htail : ∀ adv : list ndarray,
    preserves_on_raise (keeps runner_view)
      (update_attack (output:=output) (label:=label) (with_status completed)
         ≫= λ _, mret adv)).
  { intros adv t e t'. unfold mbind, M_bind, bind.
    destruct (update_attack (with_status completed) t) as [[[]|e1] t1] eqn:Hu.
    - intros [=].
    - intros [= <- <-]. by eapply preserves_on_raise_update_attack; [apply _|]. }
  unfold _run_attack.
  apply preserves_on_raise_bind; [apply _ | apply preserves_get; apply _ |].
  intros k.
  assert (Hart : preserves_on_raise (keeps runner_view)
                   (_run_art_attack (output:=output) (label:=label) logging)).
  { unfold _run_art_attack.
    apply preserves_on_raise_bind; [apply _ | apply preserves_the_attack; apply _ |].
    intros a.
    apply preserves_on_raise_bind; [apply _ | apply exec_runner_keeps | apply Htail]. }
  destruct k; [|exact Hart | |exact Hart].
  - apply preserves_on_raise_weaken; [apply _|]. apply preserves_raise; apply _.
  - unfold _run_textattack_attack.
    apply preserves_on_raise_bind; [apply _ | apply preserves_the_attack; apply _ |].
    intros a.
    apply preserves_on_raise_bind; [apply _ | apply preserves_results_query; apply _ |].
    intros ini.
    apply preserves_on_raise_bind; [apply _ | apply exec_runner_keeps | apply Htail].
Qed.

(** C8: if the running phase raises, [run_attack] raises the same exception
    (it catches nothing) and stops there: the session keeps the status and
    the results it had, so a status that was not completed stays not
    completed, and no final query, elapsed time, query count or cache-hit
    count is recorded that was not there before. *)
Theorem run_attack_runner_raises logging start stop t e t' :
  _run_attack logging t = (Raise e, t') →
  run_attack logging start stop t = (Raise e, t') ∧
  ∀ a, active_attack t = Some a →
    ∃ a', active_attack t' = Some a' ∧
      status a' = status a ∧ results a' = results a ∧
      (status a ≠ completed → status a' ≠ completed) ∧
      (∀ k, k ∈ ["final"; "elapsed_time"; "queries"; "cache_hits"] →
            results a !! k = None → results a' !! k = None).
Proof.
  intros Hrun. split.
  - unfold run_attack, mbind, M_bind, bind, get. by rewrite Hrun.
  - intros a Ha. apply run_attack_inner_raise in Hrun.
    apply keeps_runner_view in Hrun as (_ & Hs & _).
    unfold keeps, session_view in Hs. rewrite Ha in Hs.
    destruct (active_attack t') as [a'|]; [|done].
    injection Hs as Hst Hres. exists a'. split; [done|].
    split; [done|]. split; [done|]. split; [congruence|].
    intros k _. by rewrite Hres.
Qed.

(** ** The probes and the bookkeeping of [run_attack] *)


(** A probe that returns has sent its whole batch to the model. *)
Lemma get_query_counters batch t (q : @Query output label) t' :
  _get_query batch t = (Ok q, t') →
  q_input q = batch ∧
  num_evaluations t' = (num_evaluations t + Z.of_nat (length batch))%Z ∧
  actual_evaluations t' = (actual_evaluations t + Z.of_nat (length batch))%Z ∧
  active_attack t' = active_attack t.
Proof.
  unfold _get_query, mbind, M_bind, bind.
  pose proof (submit_counters batch t) as Hc. cbn zeta in Hc.
  assert (Hact : active_attack (_submit batch t).2 = active_attack t).
  { unfold _submit, call_model, mbind, M_bind, bind, modify, lift. simpl.
    by destruct (__call__ batch). }
  destruct (_submit batch t) as [[outp|e] t1]; [|done]. simpl in Hc, Hact.
  destruct (outputs_to_labels outp t1) as [[labels|e] t2] eqn:Hl; [|done].
  apply (preserves_outputs_to_labels (keeps (λ t, t))) in Hl.
  unfold keeps in Hl. subst t2. intros [= <- <-]. simpl. tauto.
Qed.

Lemma set_images_keeps_stats k filenames :
  k ≠ "queries" → k ≠ "cache_hits" →
  preserves (keeps stats_view) (set_images (output:=output) (label:=label) k filenames).
Proof.
  intros Hq Hc. unfold set_images.
  apply preserves_bind; [apply _ | apply preserves_results_query; apply _ |].
  intros d. apply preserves_update_attack; [apply _|].
  intros t a Ha. unfold keeps, stats_view. simpl. rewrite Ha. simpl.
  by rewrite !lookup_insert_ne.
Qed.

Lemma save_images_keeps_stats k arrays : ∀ i filenames,
  k ≠ "queries" → k ≠ "cache_hits" →
  preserves (keeps stats_view)
    (save_images (output:=output) (label:=label) k i arrays filenames).
Proof.
  induction arrays as [|array rest IH]; intros i filenames Hq Hc; simpl.
  - apply preserves_ret; apply _.
  - apply preserves_bind; [apply _ | apply preserves_results_query; apply _ |].
    intros d. apply preserves_bind; [apply _ | apply preserves_lift; apply _ |].
    intros lab. apply preserves_bind; [apply _ | apply preserves_lift; apply _ |].
    intros f. apply preserves_bind; [apply _ | by apply set_images_keeps_stats |].
    intros _. by apply IH.
Qed.

Lemma save_exes_keeps_stats arrays : ∀ i filenames,
  preserves (keeps stats_view)
    (save_exes (output:=output) (label:=label) i arrays filenames).
Proof.
  induction arrays as [|array rest IH]; intros i filenames; simpl.
  - apply preserves_ret; apply _.
  - apply preserves_bind; [apply _ | apply preserves_results_query; apply _ |].
    intros d. apply preserves_bind; [apply _ | apply preserves_lift; apply _ |].
    intros lab. apply preserves_bind; [apply _ | apply preserves_get; apply _ |].
    intros k. apply preserves_bind; [apply _ | |].
    { destruct k; first [apply preserves_raise; apply _ | apply preserves_ret; apply _]. }
    intros _. apply preserves_bind; [apply _ | apply preserves_the_attack; apply _ |].
    intros a. apply preserves_bind; [apply _ | apply preserves_get; apply _ |].
    intros zi. apply preserves_bind; [apply _ | apply preserves_lift; apply _ |].
    intros name. apply preserves_bind; [apply _ | apply preserves_lift; apply _ |].
    intros _. apply preserves_bind; [apply _ | apply preserves_get; apply _ |].
    intros path. apply IH.
Qed.

(** Saving the media touches neither the counters nor the recorded
    statistics. *)
Lemma save_media_keeps_stats (final : @Query output label) :
  preserves (keeps stats_view) (save_media final).
Proof.
  unfold save_media.
  apply preserves_bind; [apply _ | apply preserves_get; apply _ |].
  intros dt. destruct (decide (dt = "image")).
  - apply preserves_bind; [apply _ | apply preserves_results_query; apply _ |].
    intros ini. apply preserves_bind; [apply _ | by apply save_images_keeps_stats |].
    intros _. by apply save_images_keeps_stats.
  - destruct (decide (dt = "pe" ∨ dt = "html")).
    + apply preserves_bind; [apply _ | apply save_exes_keeps_stats |].
      intros filenames. by apply set_images_keeps_stats.
    + apply preserves_ret; apply _.
Qed.

(** [run_attack] step by step: the running phase, the final probe, the
    four entries written to the results, the media. *)
Lemma run_attack_unfold logging start stop t :
  run_attack logging start stop t =
    match _run_attack logging t with
    | (Raise e, t1) => (Raise e, t1)
    | (Ok adv, t1) =>
        match _get_query adv t1 with
        | (Raise e, t2) => (Raise e, t2)
        | (Ok final, t2) =>
            match active_attack t2 with
            | None => (Raise AttributeError, t2)
            | Some a =>
                let q := (num_evaluations t2 - num_evaluations t)%Z in
                let ch := (q - (actual_evaluations t2 - actual_evaluations t))%Z in
                save_media final
                  (with_active
                     (Some (with_results
                        (λ r, <["cache_hits" := RInt ch]>
                                (<["queries" := RInt q]>
                                   (<["elapsed_time" := RTime (stop - start)]>
                                      (<["final" := RQuery (_asdict final)]> r))))
                        a)) t2)
            end
        end
    end.
Proof.
  unfold run_attack, mbind, M_bind, bind, get.
  destruct (_run_attack logging t) as [[adv|e] t1]; [|done].
  destruct (_get_query adv t1) as [[final|e] t2]; [|done].
  unfold update_attack, the_attack, mbind, M_bind, bind, modify. simpl.
  by destruct (active_attack t2) as [a|].
Qed.

(** What a run of [run_attack] that returns has recorded, with the states
    it went through: [tr] after the running phase, [t'] at the end. *)
Lemma run_attack_returns logging start stop t t' :
  run_attack logging start stop t = (Ok tt, t') →
  ∃ adv tr (a' : @attack output label),
    _run_attack logging t = (Ok adv, tr) ∧
    num_evaluations t' = (num_evaluations tr + Z.of_nat (length adv))%Z ∧
    actual_evaluations t' = (actual_evaluations tr + Z.of_nat (length adv))%Z ∧
    gap tr = gap t ∧
    active_attack t' = Some a' ∧
    results a' !! "queries"
      = Some (RInt (num_evaluations t' - num_evaluations t)) ∧
    results a' !! "cache_hits"
      = Some (RInt ((num_evaluations t' - num_evaluations t)
                    - (actual_evaluations t' - actual_evaluations t))).
Proof.
  rewrite run_attack_unfold.
  destruct (_run_attack logging t) as [[adv|e] tr] eqn:Hrun; [|done].
  destruct (_get_query adv tr) as [[final|e] t2] eqn:Hq; [|done].
  destruct (active_attack t2) as [a|] eqn:Ha; [|done].
  cbn zeta. intros Hmedia.
  apply save_media_keeps_stats in Hmedia.
  unfold keeps, stats_view in Hmedia. simpl in Hmedia.
  injection Hmedia as Hnum Hact Hres.
  destruct (active_attack t') as [a'|]; [|done]. simpl in Hres.
  injection Hres as Hqu Hch.
  rewrite lookup_insert_ne in Hqu by done. rewrite lookup_insert_eq in Hqu.
  rewrite lookup_insert_eq in Hch.
  apply get_query_counters in Hq as (_ & Hn2 & Ha2 & _).
  apply run_attack_inner_keeps_gap in Hrun. unfold keeps in Hrun.
  exists adv, tr, a'. rewrite Hnum, Hact. by repeat split.
Qed.

(** C5: when [run_attack] returns, the session holds a query count and a
    cache-hit count; the cache hits are the queries minus the growth of
    [actual_evaluations] over the run, and they are not negative. *)
Theorem run_attack_statistics logging start stop t t' :
  run_attack logging start stop t = (Ok tt, t') →
  ∃ (a' : @attack output label) (q ch : Z),
    active_attack t' = Some a' ∧
    results a' !! "queries" = Some (RInt q) ∧
    results a' !! "cache_hits" = Some (RInt ch) ∧
    q = (num_evaluations t' - num_evaluations t)%Z ∧
    ch = (q - (actual_evaluations t' - actual_evaluations t))%Z ∧
    (0 ≤ ch)%Z.
Proof.
  intros Hrun.
  destruct (run_attack_returns _ _ _ _ _ Hrun)
    as (adv & tr & a' & _ & Hn & Ha & Hgap & Hact & Hq & Hch).
  exists a', (num_evaluations t' - num_evaluations t)%Z,
    ((num_evaluations t' - num_evaluations t)
     - (actual_evaluations t' - actual_evaluations t))%Z.
  repeat split; try done. unfold gap in Hgap. lia.
Qed.

(** X1: every submission made between the entry of [run_attack] and its
    bookkeeping is uncached (the attack is handed [_submit], alone or under
    [_submit_with_logging], and the final probe uses [_submit]), so the
    cache-hit count a returning run records is zero. *)
Lemma run_attack_no_cache_hits logging start stop t t' :
  run_attack logging start stop t = (Ok tt, t') →
  ∃ (a' : @attack output label),
    active_attack t' = Some a' ∧ results a' !! "cache_hits" = Some (RInt 0).
Proof.
  intros Hrun.
  destruct (run_attack_returns _ _ _ _ _ Hrun)
    as (adv & tr & a' & _ & Hn & Ha & Hgap & Hact & Hq & Hch).
  exists a'. split; [done|]. rewrite Hch. do 2 f_equal. unfold gap in Hgap. lia.
Qed.

Lemma init_run_attack_counters t (a : @attack output label) t1 :
  active_attack t = Some a →
  init_run_attack t = (Ok tt, t1) →
  num_evaluations t1 = (num_evaluations t + Z.of_nat (length (samples a)))%Z ∧
  actual_evaluations t1 = (actual_evaluations t + Z.of_nat (length (samples a)))%Z.
Proof.
  intros Ha. unfold init_run_attack, mbind, M_bind, bind, the_attack. rewrite Ha.
  destruct (_get_query (samples a) t) as [[q|e] t2] eqn:Hq; [|done].
  apply get_query_counters in Hq as (_ & Hn & Hact & Hs).
  unfold update_attack, the_attack, mbind, M_bind, bind, modify.
  rewrite Hs, Ha. intros [= <-]. done.
Qed.

(** C6, as amended: the counts are taken between the entry of [run_attack]
    and its bookkeeping, so the recorded queries are the evaluations of the
    running phase plus those of the final probe (steps 3 and 4); the
    evaluations of the initial probe, made by [init_run_attack] before
    [run_attack] reads the counters, are not among them. *)
Theorem run_attack_query_deltas logging start stop t (a : @attack output label) t1 t2 :
  active_attack t = Some a →
  init_run_attack t = (Ok tt, t1) →
  run_attack logging start stop t1 = (Ok tt, t2) →
  ∃ adv tr (a2 : @attack output label) (q : Z),
    _run_attack logging t1 = (Ok adv, tr) ∧
    active_attack t2 = Some a2 ∧
    results a2 !! "queries" = Some (RInt q) ∧
    results a2 !! "cache_hits"
      = Some (RInt (q - (actual_evaluations t2 - actual_evaluations t1))) ∧
    q = ((num_evaluations tr - num_evaluations t1) + Z.of_nat (length adv))%Z ∧
    q = (num_evaluations t2 - num_evaluations t1)%Z ∧
    q = ((num_evaluations t2 - num_evaluations t)
         - Z.of_nat (length (samples a)))%Z.
Proof.
  intros Ha Hinit Hrun.
  destruct (init_run_attack_counters t a t1 Ha Hinit) as [Hn1 Ha1].
  destruct (run_attack_returns _ _ _ _ _ Hrun)
    as (adv & tr & a2 & Hinner & Hn & Hact & Hgap & Hact2 & Hq & Hch).
  exists adv, tr, a2, (num_evaluations t2 - num_evaluations t1)%Z.
  repeat split; try done; lia.
Qed.

End Properties.

(** * Further properties *)

Section Further.
Context {output label : Type} `{!EqDecision label} `{!AbstractTarget output label}.
Implicit Types (t : @target output label) (c : gmap bytes output).
Implicit Types (batch : list ndarray) (res : list output).
#[local] Existing Instance keeps_preorder.

(** ** The cache under cached submissions *)

Lemma write_back_keeps c batch res : c ⊆ write_back c (zip (miss_batch c batch) res).
Proof.
  apply map_subseteq_spec. intros k o Ho. by apply write_back_hit.
Qed.

(** X2: a cached submission never removes or overwrites an entry of the
    cache, whether the model returns, returns too little or raises: the
    cache before is included in the cache after. *)
Theorem submit_with_cache_keeps_entries batch t :
  cache t ⊆ cache (_submit_with_cache batch t).2.
Proof.
  rewrite submit_with_cache_eq. cbn zeta.
  destruct (decide (miss_batch (cache t) batch = [])); [done|].
  destruct (__call__ (miss_batch (cache t) batch)) as [res|e]; [|done].
  simpl. apply write_back_keeps.
Qed.

Lemma dom_write_back c (zs : list (ndarray * output)) :
  dom (write_back c zs) = dom c ∪ list_to_set ((λ z, _key z.1) <$> zs).
Proof.
  induction zs as [|z zs IH] using rev_ind.
  - simpl. set_solver.
  - rewrite write_back_snoc, dom_insert_L, IH, fmap_app, list_to_set_app_L.
    simpl. set_solver.
Qed.

Lemma miss_batch_keys c batch res :
  length res = length (miss_batch c batch) →
  dom c ∪ list_to_set ((λ z, _key z.1) <$> zip (miss_batch c batch) res)
  =@{gset bytes} dom c ∪ list_to_set (_key <$> batch).
Proof.
  intros Hlen.
  assert (Hfst : (λ z : ndarray * output, _key z.1) <$> zip (miss_batch c batch) res
                 = _key <$> miss_batch c batch).
  { rewrite <- (fst_zip (miss_batch c batch) res) at 2 by lia.
    by rewrite <- list_fmap_compose. }
  rewrite Hfst. apply set_eq. intros k.
  rewrite !elem_of_union, !elem_of_list_to_set, !list_elem_of_fmap.
  split.
  - intros [Hk|(a & -> & Ha)]; [by left|]. right. exists a. split; [done|].
    unfold miss_batch in Ha. apply list_elem_of_filter in Ha. tauto.
  - intros [Hk|(a & -> & Ha)]; [by left|].
    destruct (c !! _key a) as [o|] eqn:Hc.
    + left. apply elem_of_dom. eauto.
    + right. exists a. split; [done|]. unfold miss_batch.
      apply list_elem_of_filter. done.
Qed.

(** X3: when the model keeps its contract on the miss batch, the keys of the
    cache after a cached submission are the keys it had before together
    with the keys of the submitted inputs, no more and no less. *)
Theorem submit_with_cache_dom batch t :
  (miss_batch (cache t) batch ≠ [] →
   ∃ res, answers (miss_batch (cache t) batch) res) →
  dom (cache (_submit_with_cache batch t).2)
  = dom (cache t) ∪ list_to_set (_key <$> batch).
Proof.
  intros Hmodel. rewrite submit_with_cache_eq. cbn zeta.
  destruct (decide (miss_batch (cache t) batch = [])) as [Hm|Hm].
  - simpl. rewrite <- (miss_batch_keys (cache t) batch []) by (by rewrite Hm).
    rewrite Hm. simpl. set_solver.
  - destruct (Hmodel Hm) as (res & Hcall & Hlen). rewrite Hcall. simpl.
    rewrite dom_write_back. by apply miss_batch_keys.
Qed.

Lemma miss_batch_all_hits c batch :
  (∀ a, a ∈ batch → is_Some (c !! _key a)) → miss_batch c batch = [].
Proof.
  intros Hall. unfold miss_batch.
  induction batch as [|a rest IH]; [done|]. rewrite filter_cons.
  destruct (Hall a) as [o Ho]; [by left|].
  rewrite decide_False by congruence. apply IH.
  intros b Hb. apply Hall. by right.
Qed.

(** X4: after a cached submission that returned, with the model keeping its
    contract, submitting the same batch again calls no model, leaves
    [actual_evaluations] and the cache as they are, still adds the size of
    the batch to [num_evaluations], and returns for every input the value
    the cache holds for its key. *)
Theorem submit_with_cache_again batch t :
  (miss_batch (cache t) batch ≠ [] →
   ∃ res, answers (miss_batch (cache t) batch) res) →
  let t1 := (_submit_with_cache batch t).2 in
  let r2 := _submit_with_cache batch t1 in
  r2.1 = Ok ((λ a, cache t1 !! _key a) <$> batch) ∧
  (∀ i a, batch !! i = Some a → ∃ o, cache t1 !! _key a = Some o) ∧
  model_calls r2.2 = model_calls t1 ∧
  actual_evaluations r2.2 = actual_evaluations t1 ∧
  cache r2.2 = cache t1 ∧
  num_evaluations r2.2 = (num_evaluations t1 + Z.of_nat (length batch))%Z.
Proof.
  intros Hmodel. cbn zeta.
  assert (Hfirst : ∃ res,
    length res = length (miss_batch (cache t) batch) ∧
    cache (_submit_with_cache batch t).2
    = write_back (cache t) (zip (miss_batch (cache t) batch) res)).
  { rewrite submit_with_cache_eq. cbn zeta.
    destruct (decide (miss_batch (cache t) batch = [])) as [Hm|Hm].
    - exists []. rewrite Hm. done.
    - destruct (Hmodel Hm) as (res & Hcall & Hlen). rewrite Hcall. by exists res. }
  destruct Hfirst as (res & Hlen & Hcache).
  set (t1 := (_submit_with_cache batch t).2) in *.
  assert (Hpresent : ∀ i a, batch !! i = Some a → ∃ o, cache t1 !! _key a = Some o).
  { intros i a Hi. rewrite Hcache.
    destruct (write_back_last (cache t) batch res Hlen i a Hi) as (o & _ & _ & Ho & _).
    eauto. }
  assert (Hm : miss_batch (cache t1) batch = []).
  { apply miss_batch_all_hits. intros a Ha.
    apply list_elem_of_lookup in Ha as [i Hi].
    destruct (Hpresent i a Hi) as [o Ho]. eauto. }
  rewrite submit_with_cache_eq. cbn zeta. rewrite Hm.
  rewrite decide_True by done. simpl. rewrite splice_nil. done.
Qed.

(** X5: when the model raises on the miss batch, the cached submission
    raises the same exception and caches nothing, and the two counters
    have nevertheless advanced, by the size of the batch and by the size of
    the miss batch. *)
Theorem submit_with_cache_model_raises batch t e :
  miss_batch (cache t) batch ≠ [] →
  __call__ (miss_batch (cache t) batch) = Raise e →
  ∃ t',
    _submit_with_cache batch t = (Raise e, t') ∧
    cache t' = cache t ∧
    num_evaluations t' = (num_evaluations t + Z.of_nat (length batch))%Z ∧
    actual_evaluations t'
    = (actual_evaluations t + Z.of_nat (length (miss_batch (cache t) batch)))%Z ∧
    model_calls t' = model_calls t ++ [miss_batch (cache t) batch].
Proof.
  intros Hm Hcall. rewrite submit_with_cache_eq. cbn zeta.
  rewrite decide_False by done. rewrite Hcall. by eexists.
Qed.

(** X6: when the model returns fewer outputs than it was sent inputs, the
    misses left without an output keep the placeholder [None] in the
    returned list, which still has the length of the batch; nothing is
    raised. *)
Theorem submit_with_cache_short_answer batch t res :
  __call__ (miss_batch (cache t) batch) = Ok res →
  length res < length (miss_batch (cache t) batch) →
  ∃ out t',
    _submit_with_cache batch t = (Ok out, t') ∧
    length out = length batch ∧
    (∀ i a, batch !! i = Some a → cache t !! _key a = None →
       length res ≤ length (miss_batch (cache t) (take i batch)) →
       out !! i = Some None) ∧
    (∃ i a, batch !! i = Some a ∧ out !! i = Some None).
Proof.
  intros Hcall Hshort.
  assert (Hm : miss_batch (cache t) batch ≠ []) by (intros Hm; rewrite Hm in Hshort; simpl in Hshort; lia).
  assert (Hrun : ∃ t', _submit_with_cache batch t = (Ok (splice (cache t) batch res), t')).
  { rewrite submit_with_cache_eq. cbn zeta. rewrite decide_False by done.
    rewrite Hcall. by eexists. }
  destruct Hrun as [t' Hrun]. set (out := splice (cache t) batch res) in *.
  assert (Hlen : length out = length batch) by apply length_splice.
  assert (Hpos : ∀ i a, batch !! i = Some a →
    out !! i = Some (match cache t !! _key a with
                     | Some o => Some o
                     | None => res !! length (miss_batch (cache t) (take i batch))
                     end)) by (intros; by apply splice_lookup).
  exists out, t'. split; [done|]. split; [done|].
  assert (Hnone : ∀ i a, batch !! i = Some a → cache t !! _key a = None →
       length res ≤ length (miss_batch (cache t) (take i batch)) →
       out !! i = Some None).
  { intros i a Hi Hc Hrank. rewrite (Hpos i a Hi), Hc.
    by rewrite lookup_ge_None_2. }
  split; [exact Hnone|].
  (* the last miss has no output *)
  clear Hrun Hpos Hlen Hcall.
  assert (Hex : ∃ i a, batch !! i = Some a ∧ cache t !! _key a = None ∧
            length (miss_batch (cache t) (take i batch)) + 1
            = length (miss_batch (cache t) batch)).
  { clear Hnone Hshort. induction batch as [|x batch IH] using rev_ind; [done|].
    destruct (cache t !! _key x) as [ox|] eqn:Hx.
    - rewrite miss_batch_app, (miss_batch_hit1 _ _ _ Hx), app_nil_r in Hm.
      destruct (IH Hm) as (i & a & Hi & Hc & Hr).
      pose proof (lookup_lt_Some _ _ _ Hi) as Hlt.
      exists i, a. split; [by rewrite lookup_app_l|]. split; [done|].
      rewrite take_app_le by lia.
      rewrite miss_batch_app, (miss_batch_hit1 _ _ _ Hx), app_nil_r. done.
    - exists (length batch), x. split; [by rewrite list_lookup_middle|].
      split; [done|]. rewrite take_app_length.
      rewrite miss_batch_app, (miss_batch_miss1 _ _ Hx), length_app. done. }
  destruct Hex as (i & a & Hi & Hc & Hr). exists i, a. split; [done|].
  apply (Hnone i a Hi Hc). lia.
Qed.

(** ** Empty batches *)

Lemma with_num_0 t : with_num (λ n, n + Z.of_nat 0)%Z t = t.
Proof. destruct t. unfold with_num. simpl. by rewrite Z.add_0_r. Qed.

(** X7: on an empty batch the cached submission returns the empty list and
    changes nothing, the model is not called; the uncached submission
    still calls the model, on the empty batch, and returns or raises what
    the model does. *)
Theorem submit_empty_batch t :
  _submit_with_cache [] t = (Ok [], t) ∧
  (_submit [] t).1 = __call__ [] ∧
  model_calls (_submit [] t).2 = model_calls t ++ [[]] ∧
  num_evaluations (_submit [] t).2 = num_evaluations t ∧
  actual_evaluations (_submit [] t).2 = actual_evaluations t.
Proof.
  split.
  - rewrite submit_with_cache_eq. cbn zeta. simpl. by rewrite with_num_0.
  - unfold _submit, call_model, mbind, M_bind, bind, modify, lift. simpl.
    repeat split; lia.
Qed.

(** ** The counter of real evaluations and the model *)

Lemma samples_sent_snoc t batch :
  samples_sent (with_calls (λ h, h ++ [batch]) t)
  = (samples_sent t + Z.of_nat (length batch))%Z.
Proof.
  unfold samples_sent. simpl. rewrite concat_app, length_app. simpl.
  rewrite app_nil_r. lia.
Qed.

Lemma submit_keeps_unsent batch : preserves (keeps unsent) (_submit batch).
Proof.
  intros t r t'. unfold _submit, call_model, mbind, M_bind, bind, modify, lift.
  simpl. intros [= <- <-]. unfold keeps, unsent. rewrite samples_sent_snoc.
  unfold samples_sent. simpl. lia.
Qed.

Lemma submit_with_cache_keeps_unsent batch :
  preserves (keeps unsent) (_submit_with_cache batch).
Proof.
  intros t r t'. rewrite submit_with_cache_eq. cbn zeta.
  destruct (decide (miss_batch (cache t) batch = [])) as [Hm|Hm].
  - intros [= <- <-]. done.
  - destruct (__call__ (miss_batch (cache t) batch)) as [res|e];
      intros [= <- <-]; unfold keeps, unsent, samples_sent; simpl;
      rewrite concat_app, length_app; simpl; rewrite app_nil_r; lia.
Qed.

(** X8: over every sequence of cached and uncached submissions,
    [actual_evaluations] grows by exactly the number of samples handed to
    the model: it counts samples, not calls, and a sample is counted when
    the model is called, whether the call returns or raises. *)
Theorem actual_evaluations_counts_samples (calls : list submission) t :
  let t' := run_submissions calls t in
  (actual_evaluations t' - actual_evaluations t
   = samples_sent t' - samples_sent t)%Z.
Proof.
  cbn zeta.
  assert (Hall : unsent (run_submissions calls t) = unsent t).
  { revert t. induction calls as [|s calls IH]; intros t; [done|].
    simpl. rewrite IH. destruct s as [batch|batch]; unfold submit_batch.
    - destruct (_submit_with_cache batch t) as [r t1] eqn:Hr.
      by apply submit_with_cache_keeps_unsent in Hr.
    - destruct (_submit batch t) as [r t1] eqn:Hr.
      by apply submit_keeps_unsent in Hr. }
  unfold unsent in Hall. lia.
Qed.

(** ** Deriving the labels *)





(** ** Submitting with the log *)

Lemma submit_eq batch t :
  _submit batch t
  = (__call__ batch,
     with_calls (λ h, h ++ [batch])
       (with_actual (λ n, n + Z.of_nat (length batch))%Z
          (with_num (λ n, n + Z.of_nat (length batch))%Z t))).
Proof. done. Qed.

Lemma with_active_same t (a : @attack output label) :
  active_attack t = Some a → with_active (Some a) t = t.
Proof. intros Ha. destruct t. simpl in *. by subst. Qed.

Lemma append_logs_eq name id (zs : list (ndarray * output * label)) :
  ∀ t (a : @attack output label),
  active_attack t = Some a →
  append_logs name id zs t
  = (Ok tt,
     with_active
       (Some (with_logs (λ l, l ++ log_entries (model_name t) name id zs) a)) t).
Proof.
  induction zs as [|[[i o] lab] zs IH]; intros t a Ha; simpl.
  - unfold mret, M_ret, ret. f_equal. unfold log_entries. simpl.
    replace (with_logs (λ l, l ++ []) a) with a
      by (destruct a; unfold with_logs; simpl; by rewrite app_nil_r).
    by rewrite with_active_same.
  - unfold update_attack, mbind, M_bind, bind, get, the_attack, modify.
    rewrite Ha. simpl.
    rewrite (IH _ (with_logs (λ l, l ++ [mk_log_entry (model_name t) name id i o lab]) a))
      by done.
    simpl. f_equal. unfold with_active. simpl. f_equal. f_equal.
    unfold with_logs. simpl. f_equal. by rewrite <- app_assoc.
Qed.


(** X11: logging is all or nothing. Whenever the logging submission raises
    (the model raised, a label could not be derived, or there is no
    session to log to) the log is as it was, although the model was called
    and both counters advanced by the size of the batch. *)
Theorem submit_with_logging_raises batch name id t e t' :
  _submit_with_logging batch name id t = (Raise e, t') →
  (logs <$> active_attack t') = (logs <$> active_attack t) ∧
  num_evaluations t' = (num_evaluations t + Z.of_nat (length batch))%Z ∧
  actual_evaluations t' = (actual_evaluations t + Z.of_nat (length batch))%Z ∧
  model_calls t' = model_calls t ++ [batch].
Proof.
  unfold _submit_with_logging, mbind, M_bind, bind. rewrite submit_eq.
  destruct (__call__ batch) as [out|e1]; [|by intros [= <- <-]].
  set (t1 := with_calls _ _). rewrite outputs_to_labels_eq.
  destruct (match out with [] => _ | _ :: _ => _ end) as [labs|e1];
    [|by intros [= <- <-]].
  destruct (active_attack t) as [a|] eqn:Ha.
  - rewrite (append_logs_eq name id _ t1 a) by done. intros [=].
  - destruct (zip (zip batch out) labs) as [|[[i o] lab] zs]; [intros [=]|].
    simpl. unfold update_attack, mbind, M_bind, bind, get, the_attack. simpl.
    rewrite Ha. intros [= <- <-]. simpl. by rewrite Ha.
Qed.

(** ** The initial probe *)


(** ** The running phase without the log *)

Lemma exec_runner_false name id (r : @runner output) t :
  let t' := (exec_runner false name id r t).2 in
  (exec_runner false name id r t).1 = outcome r ∧
  model_calls t' = model_calls t ++ asked r ∧
  num_evaluations t'
  = (num_evaluations t + Z.of_nat (length (concat (asked r))))%Z ∧
  actual_evaluations t'
  = (actual_evaluations t + Z.of_nat (length (concat (asked r))))%Z ∧
  cache t' = cache t ∧
  active_attack t' = active_attack t.
Proof.
  cbn zeta. revert t. induction r as [adv|e|batch k IH]; intros t;
    cbn [exec_runner asked outcome submit_sample].
  - simpl. rewrite app_nil_r. repeat split; lia.
  - simpl. rewrite app_nil_r. repeat split; lia.
  - rewrite submit_eq.
    destruct (IH (__call__ batch)
                (with_calls (λ h, h ++ [batch])
                   (with_actual (λ n, n + Z.of_nat (length batch))%Z
                      (with_num (λ n, n + Z.of_nat (length batch))%Z t))))
      as (Hr & Hc & Hn & Ha & Hcache & Hact).
    simpl in Hc, Hn, Ha, Hcache, Hact.
    rewrite Hr, Hc, Hn, Ha, Hcache, Hact. cbn [concat].
    rewrite length_app, <- app_assoc. repeat split; lia.
Qed.

(** X13: handed [_submit], the attack runs as if against the model alone:
    it ends as its replay ends, the model is called on the batches of the
    replay, in order, both counters grow by the number of samples in these
    batches (a batch counts even when the model raises on it), and the
    cache and the session are untouched. *)
Theorem exec_runner_replay name id (r : @runner output) t :
  let t' := (exec_runner false name id r t).2 in
  (exec_runner false name id r t).1 = outcome r ∧
  model_calls t' = model_calls t ++ asked r ∧
  num_evaluations t'
  = (num_evaluations t + Z.of_nat (length (concat (asked r))))%Z ∧
  actual_evaluations t'
  = (actual_evaluations t + Z.of_nat (length (concat (asked r))))%Z ∧
  cache t' = cache t ∧
  active_attack t' = active_attack t.
Proof. apply exec_runner_false. Qed.

Lemma run_art_attack_eq t (a : @attack output label) :
  active_attack t = Some a →
  _run_art_attack false t
  = let y := if targeted (parameters a)
             then Some (replicate (length (samples a)) (target_class a))
             else None in
    let r := exec_runner false (attack_name a) (attack_id a)
               (attack_cls a (GenerateInput (parameters a) (samples a) y)) t in
    match r.1 with
    | Ok adv => (Ok adv, with_active (Some (with_status completed a)) r.2)
    | Raise e => (Raise e, r.2)
    end.
Proof.
  intros Ha. unfold _run_art_attack, mbind, M_bind, bind, the_attack.
  rewrite Ha. cbn zeta.
  set (r := attack_cls a _).
  pose proof (exec_runner_false (attack_name a) (attack_id a) r t) as Hrep.
  cbn zeta in Hrep. destruct Hrep as (_ & _ & _ & _ & _ & Hact).
  destruct (exec_runner false (attack_name a) (attack_id a) r t) as [[adv|e] t1];
    [|done].
  simpl in *. unfold update_attack, mbind, M_bind, bind, the_attack, modify.
  by rewrite Hact, Ha.
Qed.

(** X14: for an ART or PE target running without the log, the query count
    a returning [run_attack] records is the number of samples the attack
    submitted, over all its batches, plus the number of samples it
    returned, which the final probe submits: it counts samples, not
    calls. *)
Theorem run_attack_counts_samples start stop t t' (a : @attack output label) :
  kind t = ArtTarget ∨ kind t = PETarget →
  active_attack t = Some a →
  run_attack false start stop t = (Ok tt, t') →
  let y := if targeted (parameters a)
           then Some (replicate (length (samples a)) (target_class a))
           else None in
  let r := attack_cls a (GenerateInput (parameters a) (samples a) y) in
  ∃ adv,
    outcome r = Ok adv ∧
    recorded "queries" t'
    = Some (RInt (Z.of_nat (length (concat (asked r))) + Z.of_nat (length adv))).
Proof.
  intros Hkind Ha Hrun. cbn zeta.
  destruct (run_attack_returns _ _ _ _ _ Hrun)
    as (adv & tr & a' & Hinner & Hn & _ & _ & Hact & Hq & _).
  assert (Hart : _run_art_attack false t = (Ok adv, tr)).
  { unfold _run_attack, mbind, M_bind, bind, get in Hinner.
    destruct Hkind as [Hk|Hk]; rewrite Hk in Hinner; exact Hinner. }
  rewrite (run_art_attack_eq t a Ha) in Hart. cbn zeta in Hart.
  set (r := attack_cls a _) in *.
  pose proof (exec_runner_false (attack_name a) (attack_id a) r t) as Hrep.
  cbn zeta in Hrep. destruct Hrep as (Hout & _ & Hnum & _).
  destruct (exec_runner false (attack_name a) (attack_id a) r t) as [[adv1|e] t1];
    simpl in *; [|done].
  injection Hart as -> <-. exists adv. split; [done|].
  unfold recorded. rewrite Hact. simpl. rewrite Hq. do 2 f_equal.
  simpl in Hn. lia.
Qed.

(** ** How [run_attack] ends *)

Lemma select_labels_length (classes : list label) idx labs :
  select_labels classes idx = Ok labs → length labs = length idx.
Proof.
  revert labs. induction idx as [|i idx IH]; intros labs; simpl.
  - by intros [= <-].
  - destruct (classes !! i); [|done].
    destruct (select_labels classes idx) as [ls|]; [|done].
    intros [= <-]. simpl. by rewrite (IH ls).
Qed.

(** A probe, returning or raising, leaves the session and the cache alone;
    when it returns, the query holds the batch and as many labels as
    outputs. *)
Lemma get_query_frame batch t r t' :
  _get_query batch t = (r, t') →
  active_attack t' = active_attack t ∧ cache t' = cache t ∧
  ∀ q : @Query output label, r = Ok q →
    q_input q = batch ∧ length (q_label q) = length (q_output q).
Proof.
  unfold _get_query, mbind, M_bind, bind. rewrite submit_eq.
  destruct (__call__ batch) as [out|e]; [|by intros [= <- <-]].
  rewrite outputs_to_labels_eq.
  destruct out as [|o out]; [by intros [= <- <-]|].
  destruct (select_labels _ _) as [labs|e] eqn:Hl; intros [= <- <-]; [|done].
  split; [done|]. split; [done|]. intros q [= <-]. cbn [q_label q_output].
  apply select_labels_length in Hl. by rewrite Hl, length_fmap.
Qed.

(** A running phase that returns has set the status to completed, and has
    left the results and the cache as they were. *)
Lemma run_attack_inner_returns logging t adv tr :
  _run_attack logging t = (Ok adv, tr) →
  (status <$> active_attack tr) = Some completed ∧
  (results <$> active_attack tr) = (results <$> active_attack t) ∧
  cache tr = cache t.
Proof.
  assert (Htail : ∀ name id (r : @runner output) t0 (a : @attack output label),
    active_attack t0 = Some a →
    (exec_runner logging name id r
       ≫= λ adv0, update_attack (with_status completed) ≫= λ _, mret adv0) t0
    = (Ok adv, tr) →
    (status <$> active_attack tr) = Some completed ∧
    (results <$> active_attack tr) = Some (results a) ∧ cache tr = cache t0).
  { intros name id r t0 a Ha. unfold mbind, M_bind, bind.
    destruct (exec_runner logging name id r t0) as [[adv0|e] t1] eqn:Hr; [|done].
    apply exec_runner_keeps in Hr. apply keeps_runner_view in Hr as (_ & Hs & Hc).
    unfold keeps, session_view in Hs. rewrite Ha in Hs.
    unfold update_attack, the_attack, mbind, M_bind, bind, modify.
    destruct (active_attack t1) as [a1|]; [|done]. injection Hs as Hst Hres.
    intros [= <- <-]. simpl. by rewrite Hres. }
  unfold _run_attack, mbind, M_bind, bind, get.
  destruct (kind t); [done| | |].
  - unfold _run_art_attack, mbind at 1, M_bind at 1, bind at 1, the_attack.
    destruct (active_attack t) as [a|] eqn:Ha; [|done]. by apply Htail.
  - unfold _run_textattack_attack, mbind at 1, M_bind at 1, bind at 1, the_attack.
    destruct (active_attack t) as [a|] eqn:Ha; [|done].
    unfold mbind at 1, M_bind at 1, bind at 1.
    destruct (results_query "initial" t) as [[ini|e] t0] eqn:Hq; [|done].
    apply (preserves_results_query (keeps (λ t, t))) in Hq.
    unfold keeps in Hq. subst t0. by apply Htail.
  - unfold _run_art_attack, mbind at 1, M_bind at 1, bind at 1, the_attack.
    destruct (active_attack t) as [a|] eqn:Ha; [|done]. by apply Htail.
Qed.

(** X15: a target of the base class has no attack of its own: [run_attack]
    raises [NotImplementedError] and the target is as it was. *)
Theorem run_attack_not_implemented logging start stop t :
  kind t = BaseTarget →
  run_attack logging start stop t = (Raise NotImplementedError, t).
Proof.
  intros Hk. rewrite run_attack_unfold.
  unfold _run_attack, mbind, M_bind, bind, get. by rewrite Hk.
Qed.

(** X16: when the running phase has returned and the final probe raises (the
    model raises, or a label cannot be derived), [run_attack] raises the
    same exception; the session is then completed by its status, and its
    results are those it had before the run: no final query and no
    statistics. *)
Theorem run_attack_final_probe_raises logging start stop t adv tr e t2 :
  _run_attack logging t = (Ok adv, tr) →
  _get_query adv tr = (Raise e, t2) →
  run_attack logging start stop t = (Raise e, t2) ∧
  (status <$> active_attack t2) = Some completed ∧
  (results <$> active_attack t2) = (results <$> active_attack t).
Proof.
  intros Hrun Hq. split.
  - rewrite run_attack_unfold. by rewrite Hrun, Hq.
  - apply get_query_frame in Hq as (-> & _ & _).
    by apply run_attack_inner_returns in Hrun as (? & ? & _).
Qed.

(** ** What saving the media cannot undo *)






(** ** The attacks by status, and the errors of the success check *)

(** X18: asking for the attacks of a status never returns [False], never
    raises, and returns a part of the attacks; every attack is returned under its own
    status and under no other, so the answers for the different statuses
    split the attacks. *)
Theorem get_attacks_partition (other : pyval → result bool) t k
    (a : @attack output label) :
  attacks t !! k = Some a →
  (∀ s, ∃ d, get_attacks other t (PStatus s) = Ok (AnswerDict d) ∧ d ⊆ attacks t ∧
             d !! k = if decide (s = status a) then Some a else None).
Proof.
  intros Hk s. eexists. split; [done|]. split; [apply map_filter_subseteq|].
  destruct (decide (s = status a)) as [->|Hne].
  - apply map_lookup_filter_Some. done.
  - apply map_lookup_filter_None. right. intros a' Hk' Hs. simpl in Hs.
    rewrite Hk in Hk'. injection Hk' as <-. congruence.
Qed.




End Further.

(** * The properties on the toy target *)

#[local] Existing Instance toy.

(** C1 at work: [sample_c] is a hit, [sample_a] and [sample_b] are sent to
    the model together. *)
Lemma submit_with_cache_output_witness :
  ∃ out t',
    _submit_with_cache [sample_a; sample_c; sample_b] toy_warm = (Ok out, t') ∧
    length out = 3 ∧
    out !! 1 = Some (Some 0%Z) ∧
    out !! 2 = Some (Some 1%Z).
Proof.
  destruct (submit_with_cache_output [sample_a; sample_c; sample_b] toy_warm
              [0%Z; 1%Z]) as (out & t' & Hrun & Hlen & Hpos & _).
  { right. split; [by vm_compute | by vm_compute]. }
  exists out, t'. split; [exact Hrun|]. split; [exact Hlen|]. split.
  - exact (Hpos 1 sample_c eq_refl).
  - exact (Hpos 2 sample_b eq_refl).
Defined.

(** C2 at work: the same four bytes under two element types. *)
Lemma cache_hit_on_identical_bytes_witness :
  ∃ o t1 t2,
    _submit_with_cache [sample_a] toy_start = (Ok [Some o], t1) ∧
    _submit_with_cache [sample_b] t1 = (Ok [Some o], t2) ∧
    actual_evaluations t2 = actual_evaluations t1 ∧
    model_calls t2 = model_calls t1.
Proof.
  apply (cache_hit_on_identical_bytes sample_a sample_b toy_start).
  - reflexivity.
  - intros _. exists [0%Z]. split; reflexivity.
Defined.

(** C10 as stated fails: [sample_a] and [sample_b] carry the same key and
    both miss; the model answers one output per input, in order, the cache
    ends with the output of [sample_b], and the output returned at the
    position of [sample_a] is another. *)
Lemma cached_value_differs_from_output :
  let r := _submit_with_cache [sample_a; sample_b] toy_start in
  answers [sample_a; sample_b] [0%Z; 1%Z] ∧
  miss_batch (cache toy_start) [sample_a; sample_b] = [sample_a; sample_b] ∧
  r.1 = Ok [Some 0%Z; Some 1%Z] ∧
  cache r.2 !! _key sample_a = Some 1%Z ∧
  (1 ≠ 0)%Z.
Proof. vm_compute. repeat split; done. Qed.

(** C10 as amended, on the same batch. *)
Lemma submit_with_cache_fills_cache_witness :
  ∃ out t',
    _submit_with_cache [sample_a; sample_b] toy_start = (Ok out, t') ∧
    ∃ o, cache t' !! _key sample_b = Some o ∧ out !! 1 = Some (Some o).
Proof.
  destruct (submit_with_cache_fills_cache [sample_a; sample_b] toy_start)
    as (out & t' & Hrun & Hall).
  { intros _. exists [0%Z; 1%Z]. split; reflexivity. }
  exists out, t'. split; [exact Hrun|].
  destruct (Hall 1 sample_b eq_refl) as (o & Hc & _ & Hown).
  exists o. split; [exact Hc|]. apply Hown.
  intros [|[|[|j']]] b' Hlt Hb'; simpl in Hb'; first [lia | discriminate].
Defined.

(** C5 at work: the initial probe, then a run of the idle attack. *)
Lemma run_attack_statistics_witness :
  let t1 := (init_run_attack toy_start).2 in
  let t2 := (run_attack false 10 25 t1).2 in
  ∃ (a' : @attack Z string) (q ch : Z),
    active_attack t2 = Some a' ∧
    results a' !! "queries" = Some (RInt q) ∧
    results a' !! "cache_hits" = Some (RInt ch) ∧
    q = (num_evaluations t2 - num_evaluations t1)%Z ∧
    ch = (q - (actual_evaluations t2 - actual_evaluations t1))%Z ∧
    (0 ≤ ch)%Z.
Proof.
  cbv zeta.
  apply (run_attack_statistics false 10 25 (init_run_attack toy_start).2).
  by vm_compute.
Defined.

(** C6 as stated fails: over the initial probe, the idle attack and the
    final probe the target is evaluated twice, once by the initial probe
    and once by the final probe, and the run records one query. *)
Lemma initial_probe_not_counted :
  let r1 := init_run_attack toy_start in
  let r2 := run_attack false 10 25 r1.2 in
  r1.1 = Ok tt ∧ r2.1 = Ok tt ∧
  (num_evaluations r1.2 - num_evaluations toy_start = 1)%Z ∧
  (num_evaluations r2.2 - num_evaluations toy_start = 2)%Z ∧
  recorded "queries" r2.2 = Some (RInt 1) ∧
  recorded "cache_hits" r2.2 = Some (RInt 0).
Proof. vm_compute. repeat split; done. Qed.

(** C6 as amended, on the same run. *)
Lemma run_attack_query_deltas_witness :
  let t1 := (init_run_attack toy_start).2 in
  let t2 := (run_attack false 10 25 t1).2 in
  ∃ adv tr (a2 : @attack Z string) (q : Z),
    _run_attack false t1 = (Ok adv, tr) ∧
    active_attack t2 = Some a2 ∧
    results a2 !! "queries" = Some (RInt q) ∧
    results a2 !! "cache_hits"
      = Some (RInt (q - (actual_evaluations t2 - actual_evaluations t1))) ∧
    q = ((num_evaluations tr - num_evaluations t1) + Z.of_nat (length adv))%Z ∧
    q = (num_evaluations t2 - num_evaluations t1)%Z ∧
    q = ((num_evaluations t2 - num_evaluations toy_start)
         - Z.of_nat (length (samples (toy_session idle_attack))))%Z.
Proof.
  cbv zeta.
  apply (run_attack_query_deltas false 10 25 toy_start (toy_session idle_attack)).
  - reflexivity.
  - by vm_compute.
  - by vm_compute.
Defined.

(** C8 at work: an attack that raises at once. *)
Lemma run_attack_runner_raises_witness :
  let t := toy_target (toy_session failing_attack) in
  run_attack false 10 25 t = (Raise (ExternalError "attack failed"), t) ∧
  ∀ a, active_attack t = Some a →
    ∃ a', active_attack t = Some a' ∧
      status a' = status a ∧ results a' = results a ∧
      (status a ≠ completed → status a' ≠ completed) ∧
      (∀ k, k ∈ ["final"; "elapsed_time"; "queries"; "cache_hits"] →
            results a !! k = None → results a' !! k = None).
Proof.
  cbv zeta.
  apply (run_attack_runner_raises false 10 25
           (toy_target (toy_session failing_attack))).
  by vm_compute.
Defined.

(** C9 as stated fails: the empty string is no attack status, and asking
    for it returns all the attacks, here one, not [False], whatever the
    membership test would answer. *)
Lemma empty_status_returns_all_attacks :
  (∀ s, PStr EmptyString ≠ PStatus s) ∧
  (∀ other, get_attacks other toy_start (PStr EmptyString)
            = Ok (AnswerDict (attacks toy_start))) ∧
  size (attacks toy_start) = 1 ∧
  (∀ other, get_attacks other toy_start (PStr EmptyString) ≠ Ok AnswerFalse).
Proof. repeat split; done. Qed.

(** A truthy string that is no attack status, under the two membership
    tests. *)
Example get_attacks_paused :
  get_attacks enum_refuses toy_start (PStr "paused") = Raise TypeError ∧
  get_attacks enum_denies toy_start (PStr "paused") = Ok AnswerFalse.
Proof. split; by rewrite get_attacks_other_operand. Qed.

(** C9 as amended, on the toy target, with either membership test: zero
    returns the one attack there is; the status of that attack returns it,
    and another status returns no attack. *)
Lemma get_attacks_spec_witness :
  get_attacks enum_refuses toy_start (PInt 0) = Ok (AnswerDict (attacks toy_start)) ∧
  (∃ d, get_attacks enum_denies toy_start (PStatus running) = Ok (AnswerDict d) ∧
        d !! "a1" = Some (toy_session idle_attack)) ∧
  (∃ d, get_attacks enum_refuses toy_start (PStatus completed) = Ok (AnswerDict d) ∧
        d !! "a1" = None).
Proof.
  split; [|split].
  - destruct (get_attacks_spec enum_refuses toy_start) as (_ & Hfalsy & _).
    apply Hfalsy. by vm_compute; right; right; left.
  - destruct (get_attacks_spec enum_denies toy_start) as (_ & _ & Hst).
    destruct (Hst running) as (d & Hd & Hin). exists d. split; [exact Hd|].
    apply Hin. split; reflexivity.
  - destruct (get_attacks_spec enum_refuses toy_start) as (_ & _ & Hst).
    destruct (Hst completed) as (d & Hd & Hin). exists d. split; [exact Hd|].
    destruct (d !! "a1") as [a|] eqn:Hk; [|reflexivity].
    apply Hin in Hk as [Hk Hs]. vm_compute in Hk. injection Hk as <-. discriminate Hs.
Defined.

(** C7 at work on the vocabulary cat, dog, bird. A targeted session with
    target class 1 succeeds when the final label is the second entry and
    fails when it is the third; target class -1 selects the last entry; a
    vector of target classes is compared position by position. A session
    without the entry targeted, and one that holds targeted = false,
    succeed exactly when the label has changed, whatever the target
    class. *)
Lemma check_attack_success_witness :
  let tgt := {[ "targeted" := PBool true ]} in
  let unt := {[ "targeted" := PBool false ]} in
  (check_attack_success
     (labelled_target (labelled_session tgt (TCInt 1) ["cat"] ["dog"]))).1
  = Ok [true] ∧
  (check_attack_success
     (labelled_target (labelled_session tgt (TCInt 1) ["cat"] ["bird"]))).1
  = Ok [false] ∧
  (check_attack_success
     (labelled_target (labelled_session tgt (TCInt (-1)) ["cat"] ["bird"]))).1
  = Ok [true] ∧
  (check_attack_success
     (labelled_target
        (labelled_session tgt (TCList [0; 2]%Z) ["dog"; "dog"] ["cat"; "cat"]))).1
  = Ok [true; false] ∧
  (check_attack_success
     (labelled_target (labelled_session ∅ (TCInt 0) ["cat"] ["dog"]))).1
  = Ok [true] ∧
  (check_attack_success
     (labelled_target (labelled_session unt (TCInt 0) ["cat"] ["dog"]))).1
  = Ok [true] ∧
  (check_attack_success
     (labelled_target (labelled_session unt (TCInt 0) ["cat"] ["cat"]))).1
  = Ok [false].
Proof.
  cbv zeta.
  pose proof (λ params tc ini fin,
    check_attack_success_spec
      (labelled_target (labelled_session params tc ini fin))
      (labelled_session params tc ini fin)
      (mk_query_dict [sample_c] [0%Z] fin None)
      (mk_query_dict [sample_a] [0%Z] ini None)
      eq_refl eq_refl eq_refl) as Hspec.
  split; [|split; [|split; [|split; [|split; [|split]]]]].
  - destruct (Hspec {[ "targeted" := PBool true ]} (TCInt 1) ["cat"] ["dog"])
      as (Hpos & _).
    rewrite (Hpos 1%Z "dog"); [reflexivity..| lia | reflexivity].
  - destruct (Hspec {[ "targeted" := PBool true ]} (TCInt 1) ["cat"] ["bird"])
      as (Hpos & _).
    rewrite (Hpos 1%Z "dog"); [reflexivity..| lia | reflexivity].
  - destruct (Hspec {[ "targeted" := PBool true ]} (TCInt (-1)) ["cat"] ["bird"])
      as (_ & Hneg & _).
    rewrite (Hneg (-1)%Z "bird"); [reflexivity..| lia | simpl; lia | reflexivity].
  - destruct (Hspec {[ "targeted" := PBool true ]} (TCList [0; 2]%Z)
                ["dog"; "dog"] ["cat"; "cat"]) as (_ & _ & Hvec & _).
    rewrite (Hvec [0; 2]%Z ["cat"; "bird"]); [reflexivity..| | reflexivity].
    repeat (constructor; [left; split; [lia | reflexivity]|]). constructor.
  - destruct (Hspec ∅ (TCInt 0) ["cat"] ["dog"]) as (_ & _ & _ & Hun & _).
    rewrite Hun; [reflexivity | by left | reflexivity].
  - destruct (Hspec {[ "targeted" := PBool false ]} (TCInt 0) ["cat"] ["dog"])
      as (_ & _ & _ & Hun & _).
    rewrite Hun; [reflexivity | by right | reflexivity].
  - destruct (Hspec {[ "targeted" := PBool false ]} (TCInt 0) ["cat"] ["cat"])
      as (_ & _ & _ & Hun & _).
    rewrite Hun; [reflexivity | by right | reflexivity].
Defined.

(** The run of the idle attack records no cache hit. *)
Lemma run_attack_no_cache_hits_witness :
  let t1 := (init_run_attack toy_start).2 in
  let t2 := (run_attack false 10 25 t1).2 in
  ∃ (a' : @attack Z string),
    active_attack t2 = Some a' ∧ results a' !! "cache_hits" = Some (RInt 0).
Proof.
  cbv zeta.
  apply (run_attack_no_cache_hits false 10 25 (init_run_attack toy_start).2).
  by vm_compute.
Defined.

(** * The further properties on the toy target *)

(** X3 at work: one hit and one miss. *)
Lemma submit_with_cache_dom_witness :
  dom (cache (_submit_with_cache [sample_a; sample_c] toy_warm).2)
  = dom (cache toy_warm) ∪ list_to_set (_key <$> [sample_a; sample_c]).
Proof.
  apply (submit_with_cache_dom [sample_a; sample_c] toy_warm).
  intros _. exists [0%Z]. split; reflexivity.
Defined.

(** X4 at work: two inputs with one key, submitted twice. *)
Lemma submit_with_cache_again_witness :
  let t1 := (_submit_with_cache [sample_a; sample_b] toy_start).2 in
  let r2 := _submit_with_cache [sample_a; sample_b] t1 in
  r2.1 = Ok ((λ a, cache t1 !! _key a) <$> [sample_a; sample_b]) ∧
  (∀ i a, [sample_a; sample_b] !! i = Some a → ∃ o, cache t1 !! _key a = Some o) ∧
  model_calls r2.2 = model_calls t1 ∧
  actual_evaluations r2.2 = actual_evaluations t1 ∧
  cache r2.2 = cache t1 ∧
  num_evaluations r2.2 = (num_evaluations t1 + 2)%Z.
Proof.
  cbv zeta.
  apply (submit_with_cache_again [sample_a; sample_b] toy_start).
  intros _. exists [0%Z; 1%Z]. split; reflexivity.
Defined.

(** X5 at work: the model is down. *)
Lemma submit_with_cache_model_raises_witness :
  ∃ t',
    @_submit_with_cache Z string broken [sample_a; sample_c] toy_warm
    = (Raise (ExternalError "model down"), t') ∧
    cache t' = cache toy_warm ∧
    num_evaluations t' = 3%Z ∧ actual_evaluations t' = 2%Z ∧
    model_calls t' = [[sample_c]; [sample_a]].
Proof.
  destruct (submit_with_cache_model_raises (AbstractTarget0:=broken)
              [sample_a; sample_c] toy_warm (ExternalError "model down"))
    as (t' & Hrun & Hc & Hn & Ha & Hm).
  - by vm_compute.
  - reflexivity.
  - exists t'. split; [exact Hrun|]. split; [exact Hc|].
    split; [exact Hn|]. split; [exact Ha | exact Hm].
Defined.

(** X6 at work: two misses, one output. *)
Lemma submit_with_cache_short_answer_witness :
  ∃ out t',
    @_submit_with_cache Z string terse [sample_a; sample_c] toy_start = (Ok out, t') ∧
    length out = 2 ∧
    out !! 1 = Some None.
Proof.
  destruct (submit_with_cache_short_answer (AbstractTarget0:=terse)
              [sample_a; sample_c] toy_start [0%Z])
    as (out & t' & Hrun & Hlen & Hnone & _).
  - reflexivity.
  - vm_compute. lia.
  - exists out, t'. split; [exact Hrun|]. split; [exact Hlen|].
    apply (Hnone 1 sample_c); [reflexivity | reflexivity | vm_compute; lia].
Defined.



(** X11 at work: the second label is beyond the vocabulary of one. *)
Lemma submit_with_logging_raises_witness :
  let r := _submit_with_logging [sample_b] "hop" "a1" toy_narrow in
  r.1 = Raise IndexError ∧
  (logs <$> active_attack r.2) = (logs <$> active_attack toy_narrow) ∧
  num_evaluations r.2 = 1%Z ∧ actual_evaluations r.2 = 1%Z ∧
  model_calls r.2 = [[sample_b]].
Proof.
  cbv zeta. split; [reflexivity|].
  apply (submit_with_logging_raises [sample_b] "hop" "a1" toy_narrow IndexError).
  reflexivity.
Defined.


(** X14 at work: the attack submits its one sample once and returns it;
    two queries are recorded. *)
Lemma run_attack_counts_samples_witness :
  recorded "queries"
    (run_attack false 10 25 (toy_target (toy_session one_query_attack))).2
  = Some (RInt 2).
Proof.
  destruct (run_attack_counts_samples 10 25
              (toy_target (toy_session one_query_attack))
              (run_attack false 10 25 (toy_target (toy_session one_query_attack))).2
              (toy_session one_query_attack))
    as (adv & Hout & Hq).
  - by left.
  - reflexivity.
  - by vm_compute.
  - injection Hout as <-. exact Hq.
Defined.

(** X15 at work. *)
Lemma run_attack_not_implemented_witness :
  run_attack true 10 25 toy_base = (Raise NotImplementedError, toy_base).
Proof. apply run_attack_not_implemented. reflexivity. Defined.

(** X16 at work: the idle attack returns, the model is down for the final
    probe. *)
Lemma run_attack_final_probe_raises_witness :
  let r := @run_attack Z string broken false 10 25 toy_start in
  r.1 = Raise (ExternalError "model down") ∧
  (status <$> active_attack r.2) = Some completed ∧
  (results <$> active_attack r.2) = (results <$> active_attack toy_start).
Proof.
  cbv zeta.
  destruct (run_attack_final_probe_raises (AbstractTarget0:=broken) false 10 25
              toy_start [sample_a]
              (@_run_attack Z string broken false toy_start).2
              (ExternalError "model down")
              (@run_attack Z string broken false 10 25 toy_start).2)
    as (Hrun & Hst & Hres).
  - by vm_compute.
  - by vm_compute.
  - rewrite Hrun. simpl. split; [reflexivity|]. split; [exact Hst | exact Hres].
Defined.


(** X18 at work: the one attack of the toy target is running. *)
Lemma get_attacks_partition_witness :
  ∃ d1 d2,
    get_attacks enum_refuses toy_start (PStatus running) = Ok (AnswerDict d1) ∧
    d1 !! "a1" = Some (toy_session idle_attack) ∧
    get_attacks enum_refuses toy_start (PStatus completed) = Ok (AnswerDict d2) ∧
    d2 !! "a1" = None.
Proof.
  assert (Hpart := get_attacks_partition enum_refuses toy_start "a1"
                     (toy_session idle_attack)).
  specialize (Hpart ltac:(reflexivity)).
  destruct (Hpart running) as (d1 & H1 & _ & Hk1).
  destruct (Hpart completed) as (d2 & H2 & _ & Hk2).
  exists d1, d2. split; [exact H1|]. split; [exact Hk1|].
  split; [exact H2 | exact Hk2].
Defined.

